(** * AOV video analyzer: the per-frame extraction and tracking pipeline

    A shallow embedding of [GameVideoAnalyzer] (game_video.cpp) and the
    properties of its digit matcher, number composer, hero tracker and
    joystick estimator.

    Conventions of the embedding.
    - C++ [int] is modelled on [Z].  Signed overflow is undefined behaviour
      in C++, so the model describes the executions in which every [int]
      (pixel coordinates, millisecond timestamps, counters) stays in range.
    - C++ [double] is modelled by Rocq's primitive binary64 floats, so that
      rounding, infinities and NaN are those of the hardware.
    - [std::vector] is a [list]; [v[i]] is a lookup, [push_back] appends,
      [erase(begin()+i)] is [delete i].  Indexing out of range is undefined
      behaviour in C++; the lookups below fall back on a default there, and
      [nearest_hero_range] and [parallel_run] show that the tracker never
      indexes its three index-parallel vectors out of range.
    - OpenCV primitives (thresholding, contours, bounding rectangles, Hough
      circles, drawing, windows) are outside the repository: their results
      are inputs of the modelled functions; rendering and logging to
      [std::cout] have no counterpart. *)

From Stdlib Require Import ZArith Floats Lia.
From stdpp Require Import base list numbers sorting.

Open Scope Z_scope.

(** ** Data model *)

(** [cv::Point]: integer pixel coordinates. *)
Record Point := mkPoint { pt_x : Z; pt_y : Z }.

(** [cv::Rect]: top-left corner and size. *)
Record Rect := mkRect { r_x : Z; r_y : Z; r_width : Z; r_height : Z }.

(** [struct HeroStatus]. *)
Record HeroStatus := mkHero { hero_id : Z; position : Point; level : Z }.

#[global] Instance Point_eq_dec : EqDecision Point.
Proof. solve_decision. Defined.
#[global] Instance HeroStatus_eq_dec : EqDecision HeroStatus.
Proof. solve_decision. Defined.
#[global] Instance HeroStatus_inhabited : Inhabited HeroStatus :=
  populate (mkHero 0 (mkPoint 0 0) 0).

(** The private and public members of [class GameVideoAnalyzer] that the
    modelled methods read or write.  ([status_list_] is only appended to by
    the frame loop of [main] and the fixed joystick geometry is constant; see
    [joystick_lu_] and [joystick_axis_] below.) *)
Record GameVideoAnalyzer := mkAnalyzer {
  dist_list_ : list float;
  hero_id_ : Z;
  is_heroes_list_initialized_ : bool;
  last_updated_ : list Z;
  appearances_ : list Z;
  heroes_list_ : list HeroStatus
}.

(** [GameVideoAnalyzer::GameVideoAnalyzer()]: empty vectors, id counter 0,
    heroes list not yet initialised. *)
Definition new_analyzer : GameVideoAnalyzer :=
  mkAnalyzer [] 0 false [] [] [].

(** ** Double arithmetic *)

(** [static_cast<double>(n)] for an [int] (or [size_t]) [n].  Every integer
    of fewer than 54 bits is a binary64 number: its mantissa is [n] shifted
    left to 53 bits.  Wider integers are rounded to nearest. *)
Definition int_to_SF (n : Z) : spec_float :=
  match n with
  | Z0 => S754_zero false
  | Zpos p | Zneg p =>
      let d := Zpos (digits2_pos p) in
      if (d <=? prec)%Z
      then S754_finite (n <? 0) (Pos.shiftl p (Z.to_N (prec - d))) (d - prec)
      else binary_normalize prec emax n 0 false
  end.

Definition of_int (n : Z) : float := SF2Prim (int_to_SF n).

(** [pow(x, 2)]: the square, as the C library returns it for the operands
    met here (differences of pixel coordinates and of distances). *)
Definition pow2 (x : float) : float := (x * x)%float.

(** Conversion of a [double] (or [float]) to [int]: truncation toward zero.
    Not-a-number and the infinities, for which C++ leaves the conversion
    undefined, are sent to 0. *)
Definition to_int (f : float) : Z :=
  match Prim2SF f with
  | S754_finite s m e =>
      let a := match e with
               | Zneg k => Z.shiftr (Zpos m) (Zpos k)
               | _ => Z.shiftl (Zpos m) e
               end in
      if s then - a else a
  | _ => 0
  end.

(** ** EntityTracker: [assign_hero] *)

(** Euclidean distance between two points, as computed at lines 286-287:
    [sqrt(pow(dx, 2) + pow(dy, 2))]. *)
Definition point_dist (p q : Point) : float :=
  PrimFloat.sqrt (pow2 (of_int (pt_x p - pt_x q)) +
                  pow2 (of_int (pt_y p - pt_y q)))%float.

(** The nearest-neighbour scan of lines 283-292, started at index [i] with
    the running minimum [dist_min] and its index [i_min] ([-1]: none). *)
Fixpoint nearest_loop (pos : Point) (heroes : list HeroStatus) (i : nat)
    (dist_min : float) (i_min : Z) : float * Z :=
  match heroes with
  | [] => (dist_min, i_min)
  | h :: rest =>
      let dist := point_dist pos (position h) in
      if (dist <? dist_min)%float
      then nearest_loop pos rest (S i) dist (Z.of_nat i)
      else nearest_loop pos rest (S i) dist_min i_min
  end.

Definition nearest_hero (pos : Point) (heroes : list HeroStatus) : Z :=
  snd (nearest_loop pos heroes 0 20%float (-1)).

(** The four lines shared by the creating branches:
    [HeroStatus hero = {hero_id_++, position, level}] and the four
    [push_back]s. *)
Definition push_new_hero (lvl : Z) (pos : Point) (ts : Z)
    (out : list HeroStatus) (st : GameVideoAnalyzer)
    : list HeroStatus * GameVideoAnalyzer :=
  let hero := mkHero (hero_id_ st) pos lvl in
  (out ++ [hero],
   mkAnalyzer (dist_list_ st) (hero_id_ st + 1)
     (is_heroes_list_initialized_ st)
     (last_updated_ st ++ [ts]) (appearances_ st ++ [1])
     (heroes_list_ st ++ [hero])).

(** The merging branches: report the old identity, overwrite the stored
    position (and the level when [bump] is set), refresh the
    timestamp, count one more appearance. *)
Definition merge_hero (i : nat) (lvl : Z) (pos : Point) (ts : Z)
    (bump : bool) (out : list HeroStatus) (st : GameVideoAnalyzer)
    : list HeroStatus * GameVideoAnalyzer :=
  let old := heroes_list_ st !!! i in
  let hero := mkHero (hero_id old) pos lvl in
  (out ++ [hero],
   mkAnalyzer (dist_list_ st) (hero_id_ st)
     (is_heroes_list_initialized_ st)
     (<[i := ts]> (last_updated_ st))
     (<[i := (appearances_ st !!! i) + 1]> (appearances_ st))
     (<[i := mkHero (hero_id old) pos (if bump then lvl else level old)]>
        (heroes_list_ st))).

(** [GameVideoAnalyzer::assign_hero(level, position, hero_status_list, ts)].
    [out] is the caller's [hero_status_list]. *)
Definition assign_hero (lvl : Z) (pos : Point) (out : list HeroStatus)
    (ts : Z) (st : GameVideoAnalyzer)
    : list HeroStatus * GameVideoAnalyzer :=
  if negb (is_heroes_list_initialized_ st) then
    push_new_hero lvl pos ts out st
  else
    let i_min := nearest_hero pos (heroes_list_ st) in
    let i := Z.to_nat i_min in
    if (i_min =? -1)
       || (negb (i_min =? -1) && (ts - (last_updated_ st !!! i) >? 3000))
       || (negb (i_min =? -1) && (lvl <? level (heroes_list_ st !!! i)))
    then push_new_hero lvl pos ts out st
    else if lvl =? level (heroes_list_ st !!! i)
    then merge_hero i lvl pos ts false out st
    else if lvl =? level (heroes_list_ st !!! i) + 1
    then merge_hero i lvl pos ts true out st
    else push_new_hero lvl pos ts out st.

(** ** NumberComposer: the pairing loop of [track_hero] *)

(** Line 423: two detections belong to the same level icon. *)
Definition same_icon (p1 p2 : Point) : bool :=
  (Z.abs (pt_y p1 - pt_y p2) <? 3)
  && (Z.abs (pt_x p1 - pt_x p2) <? 15)
  && (Z.abs (pt_x p1 - pt_x p2) >? 8).

(** Line 424: the level read off a pair. *)
Definition pair_level (p1 : Point) (num1 : Z) (p2 : Point) (num2 : Z) : Z :=
  if pt_x p1 >? pt_x p2 then num1 + 10 * num2 else num2 + 10 * num1.

(** Line 428: the position reported for a pair. *)
Definition pair_anchor (p1 p2 : Point) : Point :=
  if pt_x p1 >? pt_x p2 then p1 else p2.

(** The inner loop over [j] (lines 419-434): the first later detection that
    pairs with [(p1, num1)] into a level of at most 15, with its index. *)
Fixpoint find_partner (p1 : Point) (num1 : Z) (j : nat)
    (rest : list (Point * Z)) : option (nat * Z * Point) :=
  match rest with
  | [] => None
  | (p2, num2) :: rest' =>
      if same_icon p1 p2 && (pair_level p1 num1 p2 num2 <=? 15)
      then Some (j, pair_level p1 num1 p2 num2, pair_anchor p1 p2)
      else find_partner p1 num1 (S j) rest'
  end.

(** The state of the outer loop: the [is_single_digit] flags, the frame's
    [hero_status_list] and the analyzer. *)
Definition compose_state : Type :=
  list bool * list HeroStatus * GameVideoAnalyzer.

(** One iteration of the outer loop (lines 408-438) for index [i]. *)
Definition compose_step (rect_num_vec : list (Point * Z)) (ts : Z)
    (s : compose_state) (i : nat) : compose_state :=
  let '(is_single_digit, out, st) := s in
  if negb (is_single_digit !!! i) then s
  else
    match rect_num_vec !! i with
    | None => s
    | Some (p1, num1) =>
        match find_partner p1 num1 (S i) (drop (S i) rect_num_vec) with
        | Some (j, hero_level, anchor) =>
            let '(out', st') := assign_hero hero_level anchor out ts st in
            (<[j := false]> (<[i := false]> is_single_digit), out', st')
        | None =>
            if num1 >? 0
            then let '(out', st') := assign_hero num1 p1 out ts st in
                 (is_single_digit, out', st')
            else s
        end
    end.

(** [GameVideoAnalyzer::track_hero], from line 406 on.  The image processing
    of lines 336-400 yields [rect_num_vec], the recognised digits with the
    top-left corners of their boxes, in contour order; it is the input here.
    Returns the frame's [hero_status_list] and the updated analyzer. *)
Definition track_hero (rect_num_vec : list (Point * Z)) (ts : Z)
    (st : GameVideoAnalyzer) : list HeroStatus * GameVideoAnalyzer :=
  let n := length rect_num_vec in
  let '(_, out, st') :=
    foldl (compose_step rect_num_vec ts) (replicate n true, [], st) (seq 0 n) in
  (out,
   mkAnalyzer (dist_list_ st') (hero_id_ st') true
     (last_updated_ st') (appearances_ st') (heroes_list_ st')).

(** ** EntityTracker: [delete_inactive_heroes] *)

(** [erase] at index [i] in the three parallel vectors. *)
Definition erase_hero (i : nat) (st : GameVideoAnalyzer) : GameVideoAnalyzer :=
  mkAnalyzer (dist_list_ st) (hero_id_ st) (is_heroes_list_initialized_ st)
    (delete i (last_updated_ st)) (delete i (appearances_ st))
    (delete i (heroes_list_ st)).

(** Line 463: the entity at index [i] is stale and has too few appearances. *)
Definition is_inactive (ts inactive_time num_app : Z) (i : nat)
    (st : GameVideoAnalyzer) : bool :=
  (ts - (last_updated_ st !!! i) >? inactive_time)
  && ((appearances_ st !!! i) <? num_app).

(** The loop of lines 459-470: [i] runs upward and is incremented after every
    iteration, also after an erasure; the bound [heroes_list_.size()] is read
    afresh each time.  [fuel] bounds the number of iterations. *)
Fixpoint delete_loop (fuel : nat) (ts inactive_time num_app : Z) (i : nat)
    (st : GameVideoAnalyzer) : GameVideoAnalyzer :=
  match fuel with
  | O => st
  | S fuel' =>
      if (i <? length (heroes_list_ st))%nat then
        delete_loop fuel' ts inactive_time num_app (S i)
          (if is_inactive ts inactive_time num_app i st
           then erase_hero i st else st)
      else st
  end.

(** [GameVideoAnalyzer::delete_inactive_heroes(ts, inactive_time, num_app)].
    The loop runs at most [heroes_list_.size()] times (see
    [delete_loop_terminates]). *)
Definition delete_inactive_heroes (ts inactive_time num_app : Z)
    (st : GameVideoAnalyzer) : GameVideoAnalyzer :=
  delete_loop (length (heroes_list_ st)) ts inactive_time num_app 0 st.

(** One round of the frame loop of [main] (lines 592-596) as far as the
    tracker is concerned: track, then prune with the constants of [main]. *)
Definition process_frame (rect_num_vec : list (Point * Z)) (ts : Z)
    (st : GameVideoAnalyzer) : list HeroStatus * GameVideoAnalyzer :=
  let '(out, st') := track_hero rect_num_vec ts st in
  (out, delete_inactive_heroes ts 1000 5 st').

(** ** JoystickEstimator *)

(** The hard-coded joystick geometry set by the constructor (lines 85-90). *)
Definition joystick_lu_ : Point := mkPoint 58 411.
Definition joystick_axis_ : Point := mkPoint 206 559.

(** [#define PI 3.14159265], as the nearest binary64 number. *)
Definition PI : float := 0x1.921fb53c8d4f1p+1%float.

(** The value [666.0] that [estimate_joystick_angle] returns when no circle
    was found. *)
Definition undetected : float := 666%float.

(** A [cv::Vec3f] of [cv::HoughCircles]: centre x, centre y, radius. *)
Definition Circle : Type := float * float * float.

(** [circle_center] of line 228: the corner of the search rectangle plus the
    circle's centre, whose coordinates are truncated by the [cv::Point]
    constructor. *)
Definition circle_center (c : Circle) : Point :=
  let '(cx, cy, _) := c in
  mkPoint (pt_x joystick_lu_ + to_int cx) (pt_y joystick_lu_ + to_int cy).

Section Joystick.

(** [atan2] of the C library. *)
Variable atan2 : float -> float -> float.

(** The angle of line 232, in degrees. *)
Definition joystick_angle_of (center : Point) : float :=
  (atan2 (of_int (pt_y joystick_axis_ - pt_y center))
         (of_int (pt_x center - pt_x joystick_axis_)) * 180 / PI)%float.

(** [GameVideoAnalyzer::estimate_joystick_angle].  [circles] is the output
    of [cv::HoughCircles] on the joystick rectangle of the frame. *)
Definition estimate_joystick_angle (circles : list Circle)
    (st : GameVideoAnalyzer) : float * GameVideoAnalyzer :=
  match circles with
  | [] => (undetected, st)
  | c :: _ =>
      let center := circle_center c in
      (joystick_angle_of center,
       mkAnalyzer (dist_list_ st ++ [point_dist center joystick_axis_])
         (hero_id_ st) (is_heroes_list_initialized_ st)
         (last_updated_ st) (appearances_ st) (heroes_list_ st))
  end.

End Joystick.


(** [std::accumulate(begin, end, 0)]: the initial value [0] is an [int], so
    the accumulator is an [int] and every partial sum [init + *it], computed
    in [double], is converted back to [int]. *)
Definition accumulate_int (l : list float) : Z :=
  foldl (fun init d => to_int (of_int init + d)%float) 0 l.

(** The loop of lines 243-246. *)
Definition err_sum_of (mean : float) (l : list float) : float :=
  foldl (fun err_sum d => (err_sum + pow2 (d - mean))%float) 0%float l.

(** [GameVideoAnalyzer::estimate_js_axis_status(mean, stdvar)].  The two
    output parameters are modelled by their contents before and after the
    call; [None] is a [double] that was never written (in [main] both are
    uninitialised locals). *)
Definition estimate_js_axis_status (st : GameVideoAnalyzer)
    (mean stdvar : option float) : option float * option float :=
  match dist_list_ st with
  | [] => (mean, stdvar)
  | _ =>
      let n := Z.of_nat (length (dist_list_ st)) in
      let m := (of_int (accumulate_int (dist_list_ st)) / of_int n)%float in
      let err_sum := err_sum_of m (dist_list_ st) in
      (Some m, Some (PrimFloat.sqrt (err_sum / of_int (n - 1))%float))
  end.

(** The statistic in the words of the specification: the arithmetic mean of
    all samples and the sample standard deviation with divisor [n - 1],
    absent when fewer than two samples exist. *)
Definition spec_mean (l : list float) : float :=
  (foldl PrimFloat.add 0%float l / of_int (Z.of_nat (length l)))%float.

Definition spec_stddev (l : list float) : option float :=
  if (length l <? 2)%nat then None
  else Some (PrimFloat.sqrt
               (err_sum_of (spec_mean l) l
                / of_int (Z.of_nat (length l) - 1))%float).

(** ** DigitTemplateMatcher *)

(** A single-channel 8-bit [cv::Mat]: its dimensions and its pixel accessor
    [at<uchar>(iy, ix)]. *)
Record Mat := mkMat { rows : nat; cols : nat; at_ : nat -> nat -> Z }.

#[global] Instance Mat_inhabited : Inhabited Mat :=
  populate (mkMat 0 0 (fun _ _ => 0)).

(** An image given by its rows of pixels. *)
Definition mat_of_rows (l : list (list Z)) : Mat :=
  mkMat (length l) (length (hd [] l)) (fun iy ix => nth ix (nth iy l []) 0).

(** [src(box)]: the sub-image under a rectangle lying inside the image. *)
Definition sub_mat (src : Mat) (box : Rect) : Mat :=
  mkMat (Z.to_nat (r_height box)) (Z.to_nat (r_width box))
    (fun iy ix => at_ src (Z.to_nat (r_y box) + iy) (Z.to_nat (r_x box) + ix)).

(** The rectangle covering a whole image. *)
Definition whole (m : Mat) : Rect :=
  mkRect 0 0 (Z.of_nat (cols m)) (Z.of_nat (rows m)).

(** Modelled from the spec: [cv::resize] with [INTER_NEAREST] is OpenCV code,
    not part of the repository.  "Resample the region to the template's exact
    dimensions (nearest-neighbor)": destination pixel [(iy, ix)] is the
    source pixel at [(floor(iy*rows/h), floor(ix*cols/w))], clamped to the
    image. *)
Definition resize_nearest (src : Mat) (w h : nat) : Mat :=
  mkMat h w
    (fun iy ix =>
       at_ src (Nat.min (iy * rows src / h) (rows src - 1))
               (Nat.min (ix * cols src / w) (cols src - 1))).

(** Lines 125-126: height over width, in [double]. *)
Definition hw_ratio (m : Mat) : float :=
  (of_int (Z.of_nat (rows m)) / of_int (Z.of_nat (cols m)))%float.

(** Line 127: the aspect ratios differ by more than a fifth
    ([1.2] and [0.8] are the nearest binary64 numbers). *)
Definition ratio_rejected (roi sample : Mat) : bool :=
  let q := (hw_ratio roi / hw_ratio sample)%float in
  (0x1.3333333333333p+0 <? q)%float || (q <? 0x1.999999999999ap-1)%float.

(** Lines 142-150: a pixel counts as an error when one image is white (255)
    and the other black (0) there. *)
Definition pixel_differs (a b : Z) : bool :=
  ((a =? 255) && (b =? 0)) || ((a =? 0) && (b =? 255)).

(** Lines 139-152: the number of disagreeing pixels, accumulated in a
    [double] by [avg_err += 1.0f], row by row. *)
Definition count_errors (roi sample : Mat) : float :=
  foldl (fun acc iy =>
           foldl (fun acc ix =>
                    if pixel_differs (at_ roi iy ix) (at_ sample iy ix)
                    then (acc + 1)%float else acc)
                 acc (seq 0 (cols roi)))
        0%float (seq 0 (rows roi)).

(** The score of a region against one template: [None] when the aspect-ratio
    test skips the template, otherwise [avg_err] of line 153. *)
Definition avg_err_of (src_roi number_sample : Mat) : option float :=
  if ratio_rejected src_roi number_sample then None
  else
    let resized :=
      resize_nearest src_roi (cols number_sample) (rows number_sample) in
    Some (count_errors resized number_sample
          / of_int (Z.of_nat (cols resized) * Z.of_nat (rows resized)))%float.

(** One iteration of the loop over the ten templates (lines 119-163); the
    state is [(min_avg_err, number_detected)]. *)
Definition roi_step (src : Mat) (box : Rect) (number_samples : list Mat)
    (s : float * Z) (i : nat) : float * Z :=
  match avg_err_of (sub_mat src box) (number_samples !!! i) with
  | None => s
  | Some avg_err =>
      if (avg_err <? fst s)%float then (avg_err, Z.of_nat i) else s
  end.

(** [GameVideoAnalyzer::detect_number_roi(src, box, number_samples,
    avg_err_thres)]: the recognised digit, or [-1].  The templates and the
    region are non-empty images ([main] refuses to start without its
    templates; [cv::resize] throws on an empty size). *)
Definition detect_number_roi (src : Mat) (box : Rect)
    (number_samples : list Mat) (avg_err_thres : float) : Z :=
  snd (foldl (roi_step src box number_samples) (avg_err_thres, -1) (seq 0 10)).

(** ** Fixed-location numbers: [detect_number_fixed] *)

(** [cv::Vec4d size_restrict = (height_min, height_max, width_min, width_max)]. *)
Definition Vec4d : Type := float * float * float * float.

(** Lines 184-202: the size filter on a bounding box.  With an all-zero
    [size_restrict] the bounds are fractions of the image size ([1.3], [1.6],
    [4.1], [9.3] as binary64 numbers), otherwise they are the four given
    numbers. *)
Definition size_accepted (src : Mat) (number_box : Rect) (size_restrict : Vec4d)
    : bool :=
  let '(h_min, h_max, w_min, w_max) := size_restrict in
  let h := of_int (r_height number_box) in
  let w := of_int (r_width number_box) in
  if ((h_min =? 0) && (h_max =? 0) && (w_min =? 0) && (w_max =? 0))%float
  then
    let src_rows := of_int (Z.of_nat (rows src)) in
    let src_cols := of_int (Z.of_nat (cols src)) in
    negb ((src_rows / 0x1.4cccccccccccdp+0 <? h)
          || (h <? src_rows / 0x1.999999999999ap+0))%float
    && negb ((src_cols / 0x1.0666666666666p+2 <? w)
             || (w <? src_cols / 0x1.299999999999ap+3))%float
  else
    negb ((h_max <? h) || (h <? h_min))%float
    && negb ((w_max <? w) || (w <? w_min))%float.

(** [std::map<int, int>] as the list of its entries in ascending key order;
    [insert] leaves an existing key untouched. *)
Fixpoint map_insert (k v : Z) (m : list (Z * Z)) : list (Z * Z) :=
  match m with
  | [] => [(k, v)]
  | (k', v') :: rest =>
      if k <? k' then (k, v) :: m
      else if k =? k' then m
      else (k', v') :: map_insert k v rest
  end.

(** One iteration of the loop over the contours (lines 178-208). *)
Definition fixed_step (src : Mat) (number_samples : list Mat)
    (avg_err_thres : float) (size_restrict : Vec4d)
    (coord_num_map : list (Z * Z)) (number_box : Rect) : list (Z * Z) :=
  if size_accepted src number_box size_restrict then
    let number_detected :=
      detect_number_roi src number_box number_samples avg_err_thres in
    if number_detected =? -1 then coord_num_map
    else map_insert (r_x number_box) number_detected coord_num_map
  else coord_num_map.

(** The value of a 32-bit [int] expression whose mathematical value is [z]:
    the two's complement reduction of [z] to 32 bits.  Within the range of
    [int] this is [z]; outside it C++ leaves the result undefined, and the
    compiled program wraps around. *)
Definition wrap_int (z : Z) : Z := (z + 2 ^ 31) mod 2 ^ 32 - 2 ^ 31.

(** Lines 210-214: the digits of the map, most significant first, in the
    [int] variable [cooldown]: [cooldown *= 10; cooldown += it->second]. *)
Definition compose_cooldown (coord_num_map : list (Z * Z)) : Z :=
  foldl (fun cooldown kv => wrap_int (wrap_int (cooldown * 10) + snd kv))
        0 coord_num_map.

(** [GameVideoAnalyzer::detect_number_fixed].  [src] is the cropped icon
    after grey conversion and thresholding, [boxes] the bounding rectangles
    of its external contours in the order [cv::findContours] lists them. *)
Definition detect_number_fixed (src : Mat) (boxes : list Rect)
    (number_samples : list Mat) (avg_err_thres : float)
    (size_restrict : Vec4d) : Z :=
  compose_cooldown
    (foldl (fixed_step src number_samples avg_err_thres size_restrict)
       [] boxes).

(** The recognised digits of a frame region, each with the x-coordinate of
    its box, in contour order: what the loop offers to the map. *)
Definition recognized (src : Mat) (boxes : list Rect)
    (number_samples : list Mat) (avg_err_thres : float)
    (size_restrict : Vec4d) : list (Z * Z) :=
  omap (fun number_box =>
          if size_accepted src number_box size_restrict then
            let d := detect_number_roi src number_box number_samples
                       avg_err_thres in
            if d =? -1 then None else Some (r_x number_box, d)
          else None)
       boxes.

(** The two bounds used on templates: an image is non-empty and its pixel
    count is an [int]. *)
Definition mat_nonempty (m : Mat) : Prop := (0 < rows m)%nat /\ (0 < cols m)%nat.

Definition mat_small (m : Mat) : Prop :=
  Z.of_nat (cols m) * Z.of_nat (rows m) < 2 ^ 31.

(** A set of ten pairwise different 2x2 black-and-white templates: template
    [i] shows the binary digits of [i + 1]. *)
Definition toy_template (i : nat) : Mat :=
  let bit k := if Z.testbit (Z.of_nat (S i)) k then 255 else 0 in
  mat_of_rows [[bit 0; bit 1]; [bit 2; bit 3]].

Definition toy_templates : list Mat := toy_template <$> seq 0 10.

(** Ten black-and-white templates of which the first is a single white
    pixel and the second a white 2x2 square; the others are as in
    [toy_templates]. *)
Definition tie_templates : list Mat :=
  [mat_of_rows [[255]]; mat_of_rows [[255; 255]; [255; 255]]]
  ++ (toy_template <$> seq 2 8).

(** The white pixels of an image, as (row, column) pairs in raster order. *)
Definition white_pixels (m : Mat) : list (nat * nat) :=
  filter (fun p => at_ m p.1 p.2 =? 255)
    (iy ← seq 0 (rows m); (fun ix => (iy, ix)) <$> seq 0 (cols m)).

(** An icon with two glyphs, one above the other at the same x-coordinate,
    on a black ground that surrounds both:
<<
      . . . .
      . . # .      the pattern of [toy_template 5]
      . # . .
      . . . .
      . # . .      the pattern of [toy_template 8]
      . . # .
      . . . .
>>
    Each glyph is one 8-connected set of two white pixels; the black row
    between them keeps the two sets apart. *)
Definition stacked_icon : Mat :=
  mat_of_rows [[0; 0; 0; 0];
               [0; 0; 255; 0];
               [0; 255; 0; 0];
               [0; 0; 0; 0];
               [0; 255; 0; 0];
               [0; 0; 255; 0];
               [0; 0; 0; 0]].

(** The bounding rectangles of the two external contours of
    [stacked_icon]: columns 1-2 and rows 1-2, columns 1-2 and rows 4-5.
    [stacked_boxes] lists the upper glyph first, [stacked_boxes_up] the
    lower one first. *)
Definition stacked_boxes : list Rect := [mkRect 1 1 2 2; mkRect 1 4 2 2].

Definition stacked_boxes_up : list Rect := [mkRect 1 4 2 2; mkRect 1 1 2 2].

(** An icon with ten glyphs side by side, each the pattern of
    [toy_template 6] (three white pixels, 8-connected), a black column
    between neighbours and a black border around:
<<
      . . . . . . .       . . . .
      . # # . # # .  ...  . # # .
      . # . . # . .       . # . .
      . . . . . . .       . . . .
>>
    Glyph [k] occupies columns [3k+1] and [3k+2] of rows 1 and 2. *)
Definition ten_sixes_icon : Mat :=
  mkMat 4 31
    (fun iy ix =>
       if (ix <? 30)%nat
          && (((iy =? 1)%nat && negb (ix mod 3 =? 0)%nat)
              || ((iy =? 2)%nat && (ix mod 3 =? 1)%nat))
       then 255 else 0).

(** The bounding rectangles of the ten external contours of
    [ten_sixes_icon], from left to right. *)
Definition ten_sixes_boxes : list Rect :=
  (fun k => mkRect (3 * Z.of_nat k + 1) 1 2 2) <$> seq 0 10.

(** The number written by a list of decimal digits, most significant digit
    first. *)
Fixpoint decimal_value (digits : list Z) : Z :=
  match digits with
  | [] => 0
  | d :: rest => d * 10 ^ Z.of_nat (length rest) + decimal_value rest
  end.

(** The state of [coord_num_map] after the loop over the contours. *)
Definition coord_num_map_of (src : Mat) (boxes : list Rect)
    (number_samples : list Mat) (avg_err_thres : float)
    (size_restrict : Vec4d) : list (Z * Z) :=
  foldl (fixed_step src number_samples avg_err_thres size_restrict) [] boxes.

(** The first digit listed for the x-coordinate [x], if any. *)
Fixpoint first_digit_at (x : Z) (l : list (Z * Z)) : option Z :=
  match l with
  | [] => None
  | (k, v) :: rest => if k =? x then Some v else first_digit_at x rest
  end.

(** Offering a list of entries to the map, one [insert] after the other. *)
Definition insert_all (m : list (Z * Z)) (l : list (Z * Z)) : list (Z * Z) :=
  foldl (fun m kv => map_insert kv.1 kv.2 m) m l.

(** ** Runs of the tracker *)

(** The public operations on the tracker state. *)
Inductive tracker_op :=
  | OpAssign (lvl : Z) (pos : Point) (ts : Z)
  | OpTrack (rect_num_vec : list (Point * Z)) (ts : Z)
  | OpDelete (ts inactive_time num_app : Z).

Definition run_op (op : tracker_op) (st : GameVideoAnalyzer)
    : GameVideoAnalyzer :=
  match op with
  | OpAssign lvl pos ts => snd (assign_hero lvl pos [] ts st)
  | OpTrack rect_num_vec ts => snd (track_hero rect_num_vec ts st)
  | OpDelete ts inactive_time num_app =>
      delete_inactive_heroes ts inactive_time num_app st
  end.

Definition run (ops : list tracker_op) (st : GameVideoAnalyzer)
    : GameVideoAnalyzer :=
  foldl (fun s op => run_op op s) st ops.

(** The identities stored in [heroes_list_], in list order. *)
Definition ids (st : GameVideoAnalyzer) : list Z :=
  hero_id <$> heroes_list_ st.

(** The identities of the entities that one operation appends to
    [heroes_list_]. *)
Definition created_by (op : tracker_op) (st : GameVideoAnalyzer) : list Z :=
  match op with
  | OpDelete _ _ _ => []
  | _ => drop (length (heroes_list_ st)) (ids (run_op op st))
  end.

(** The identities given to newly created entities along a run, in order of
    creation. *)
Fixpoint created_ids (ops : list tracker_op) (st : GameVideoAnalyzer)
    : list Z :=
  match ops with
  | [] => []
  | op :: rest => created_by op st ++ created_ids rest (run_op op st)
  end.

(** The three index-parallel vectors have the same length. *)
Definition parallel (st : GameVideoAnalyzer) : Prop :=
  length (last_updated_ st) = length (heroes_list_ st)
  /\ length (appearances_ st) = length (heroes_list_ st).

(** The identity invariant: stored identities increase strictly along
    [heroes_list_] and lie below the next free identity [hero_id_]. *)
Definition ids_fresh (st : GameVideoAnalyzer) : Prop :=
  StronglySorted Z.lt (ids st)
  /\ Forall (fun id => 0 <= id < hero_id_ st) (ids st)
  /\ 0 <= hero_id_ st.

(** What one call of [assign_hero] does: it reports one hero with the given
    position and level, and either creates it under the next free identity
    or merges it into a stored entity, whose identity is kept. *)
Inductive assign_outcome (lvl : Z) (pos : Point) (out : list HeroStatus)
    (ts : Z) (st : GameVideoAnalyzer)
    : list HeroStatus * GameVideoAnalyzer -> Prop :=
  | outcome_created :
      assign_outcome lvl pos out ts st (push_new_hero lvl pos ts out st)
  | outcome_merged i bump :
      (i < length (heroes_list_ st))%nat ->
      is_heroes_list_initialized_ st = true ->
      assign_outcome lvl pos out ts st (merge_hero i lvl pos ts bump out st).

(** [grows_spec st st' k]: from [st] to [st'] exactly [k] entities were appended,
    under the identities [hero_id_ st], [hero_id_ st + 1], ... *)
Definition grows_spec (st st' : GameVideoAnalyzer) (k : nat) : Prop :=
  ids st' = ids st ++ seqZ (hero_id_ st) (Z.of_nat k)
  /\ hero_id_ st' = hero_id_ st + Z.of_nat k.

(** During the first frame, seen from the state [st0] at its start: all the
    heroes reported so far ([out]) were appended to [heroes_list_] as new
    entities with one appearance and consecutive identities. *)
Definition first_frame_inv (st0 : GameVideoAnalyzer) (out : list HeroStatus)
    (st : GameVideoAnalyzer) : Prop :=
  is_heroes_list_initialized_ st = false
  /\ heroes_list_ st = heroes_list_ st0 ++ out
  /\ appearances_ st = appearances_ st0 ++ replicate (length out) 1
  /\ hero_id <$> out = seqZ (hero_id_ st0) (Z.of_nat (length out))
  /\ hero_id_ st = hero_id_ st0 + Z.of_nat (length out).

(** ** Predicates on binary64 numbers *)


(** [SF_not_negative x]: [x] is not-a-number or carries the sign bit 0, so
    that [x < 0] is false and [x] is not the negative zero. *)
Definition SF_not_negative (x : spec_float) : Prop :=
  match x with
  | S754_zero s | S754_finite s _ _ | S754_infinity s => s = false
  | S754_nan => True
  end.


(** ** RegionSegmenter: [is_black_white] and the front end of [track_hero] *)

(** Lines 251-264: the number of pixels with saturation above 70 and value
    above 30.  [src_s] and [src_v] are the planes [src_hsv_vec[1]] and
    [src_hsv_vec[2]] that [cv::cvtColor] and [cv::split] produce from the
    colour region. *)
Definition color_pixels_of (src_s src_v : Mat) : Z :=
  foldl (fun color_pixels iy =>
           foldl (fun color_pixels ix =>
                    if (at_ src_s iy ix >? 70) && (at_ src_v iy ix >? 30)
                    then color_pixels + 1 else color_pixels)
                 color_pixels (seq 0 (cols src_s)))
        0 (seq 0 (rows src_s)).

(** [GameVideoAnalyzer::is_black_white]: fewer than
    [std::max(12, src.cols * 2)] coloured pixels. *)
Definition is_black_white (src_s src_v : Mat) : bool :=
  color_pixels_of src_s src_v <? Z.max 12 (Z.of_nat (cols src_s) * 2).

Section Regions.

(** The sign of [cv::pointPolygonTest(contour, pt, false)]: positive inside
    the polygon, negative outside, zero on its edge. *)
Variable pointPolygonTest : list Point -> Point -> Z.

(** Lines 360-369: is a corner of the box strictly inside a polygon of the
    mask?  The loop condition [~masked] is the bitwise complement of a
    [bool] promoted to [int], which is never zero: the loop visits every
    polygon. *)
Definition is_masked (contours_mask : list (list Point)) (number_box : Rect)
    : bool :=
  foldl (fun masked contour =>
           if (pointPolygonTest contour
                 (mkPoint (r_x number_box) (r_y number_box)) >? 0)
              || (pointPolygonTest contour
                    (mkPoint (r_x number_box + r_width number_box)
                       (r_y number_box)) >? 0)
              || (pointPolygonTest contour
                    (mkPoint (r_x number_box)
                       (r_y number_box + r_height number_box)) >? 0)
              || (pointPolygonTest contour
                    (mkPoint (r_x number_box + r_width number_box)
                       (r_y number_box + r_height number_box)) >? 0)
           then true else masked)
        false contours_mask.

(** One iteration of the loop over the contours (lines 352-400): the entry
    pushed on [rect_num_vec], if any.  [src_bw] is the thresholded frame,
    [src_s] and [src_v] the saturation and value planes of the frame (the
    colour conversion works pixel by pixel, so the planes of a region are
    the regions of the planes). *)
Definition region_digit (src_bw src_s src_v : Mat)
    (contours_mask : list (list Point)) (number_samples : list Mat)
    (avg_err_thres : float) (number_box : Rect) : option (Point * Z) :=
  if is_masked contours_mask number_box then None
  else if (r_height number_box >? 15) || (r_height number_box <? 12) then None
  else if (r_width number_box >? 10) || (r_width number_box <? 4) then None
  else if negb (is_black_white (sub_mat src_s number_box)
                  (sub_mat src_v number_box)) then None
  else
    let number_detected :=
      detect_number_roi src_bw number_box number_samples avg_err_thres in
    if number_detected =? -1 then None
    else Some (mkPoint (r_x number_box) (r_y number_box), number_detected).

(** [rect_num_vec] as lines 349-400 build it from the bounding boxes of the
    external contours of the thresholded frame. *)
Definition rect_num_vec_of (src_bw src_s src_v : Mat)
    (contours_mask : list (list Point)) (number_samples : list Mat)
    (avg_err_thres : float) (boxes : list Rect) : list (Point * Z) :=
  omap (region_digit src_bw src_s src_v contours_mask number_samples
          avg_err_thres) boxes.

(** [GameVideoAnalyzer::track_hero] as a whole, on the results of the OpenCV
    calls of lines 336-353. *)
Definition track_hero_frame (src_bw src_s src_v : Mat)
    (contours_mask : list (list Point)) (boxes : list Rect) (ts : Z)
    (number_samples : list Mat) (avg_err_thres : float)
    (st : GameVideoAnalyzer) : list HeroStatus * GameVideoAnalyzer :=
  track_hero
    (rect_num_vec_of src_bw src_s src_v contours_mask number_samples
       avg_err_thres boxes) ts st.

End Regions.

(** ** Views used to state the properties *)

(** The tracked entities as records: each hero with its timestamp and its
    appearance count. *)
Definition entities (st : GameVideoAnalyzer) : list (HeroStatus * Z * Z) :=
  zip (zip (heroes_list_ st) (last_updated_ st)) (appearances_ st).

(** The test of line 463 on one entity. *)
Definition entity_inactive (ts inactive_time num_app : Z)
    (e : HeroStatus * Z * Z) : bool :=
  (ts - e.1.2 >? inactive_time) && (e.2 <? num_app).

(** What one eviction pass keeps: an entity that is not inactive is kept;
    after an inactive, erased one, the next entity is kept unexamined. *)
Fixpoint prune (ts inactive_time num_app : Z) (l : list (HeroStatus * Z * Z))
    : list (HeroStatus * Z * Z) :=
  match l with
  | [] => []
  | e :: rest =>
      if entity_inactive ts inactive_time num_app e then
        match rest with
        | [] => []
        | e' :: rest' => e' :: prune ts inactive_time num_app rest'
        end
      else e :: prune ts inactive_time num_app rest
  end.

(** A scan for the first strict minimum below a bound: [s] is the bound or
    the best score so far, with its index ([-1]: none); a score [None] is
    skipped.  Both the template loop of [detect_number_roi] and the
    nearest-neighbour loop of [assign_hero] are of this form. *)
Fixpoint running_min (scores : list (option float)) (i : nat)
    (s : float * Z) : float * Z :=
  match scores with
  | [] => s
  | sc :: rest =>
      running_min rest (S i)
        match sc with
        | Some e => if (e <? fst s)%float then (e, Z.of_nat i) else s
        | None => s
        end
  end.

(** [best_below scores bound s]: [s] is what a scan of [scores] for the
    first strict minimum below [bound] must return. *)
Definition best_below (scores : list (option float)) (bound : float)
    (s : float * Z) : Prop :=
  (s = (bound, -1)
   /\ forall j e, scores !! j = Some (Some e) -> (e <? bound)%float = false)
  \/ (exists i : nat,
        s.2 = Z.of_nat i
        /\ scores !! i = Some (Some s.1)
        /\ (s.1 <? bound)%float = true
        /\ (forall j e, scores !! j = Some (Some e) ->
                        (e <? s.1)%float = false)
        /\ (forall j e, (j < i)%nat -> scores !! j = Some (Some e) ->
                        (e <=? s.1)%float = false)).

(** The entities that are not inactive, in list order: what an eviction
    pass would keep if it examined every entity. *)
Definition active_entities (ts inactive_time num_app : Z)
    (l : list (HeroStatus * Z * Z)) : list (HeroStatus * Z * Z) :=
  List.filter (fun e => negb (entity_inactive ts inactive_time num_app e)) l.

(** [n] eviction passes with the same arguments. *)
Definition delete_inactive_heroes_n (n : nat) (ts inactive_time num_app : Z)
    (st : GameVideoAnalyzer) : GameVideoAnalyzer :=
  Nat.iter n (delete_inactive_heroes ts inactive_time num_app) st.

(** Where a reported hero comes from: a single detection with a positive
    digit, or two detections of the same icon whose pair reads at most 15. *)
Definition report_from (rect_num_vec : list (Point * Z)) (h : HeroStatus)
    : Prop :=
  (exists (i : nat) p n,
      rect_num_vec !! i = Some (p, n) /\ 0 < n
      /\ position h = p /\ level h = n)
  \/ (exists (i j : nat) p1 n1 p2 n2,
        (i < j)%nat
        /\ rect_num_vec !! i = Some (p1, n1)
        /\ rect_num_vec !! j = Some (p2, n2)
        /\ same_icon p1 p2 = true
        /\ pair_level p1 n1 p2 n2 <= 15
        /\ position h = pair_anchor p1 p2
        /\ level h = pair_level p1 n1 p2 n2).

(** ** The joystick samples and the tracker *)

(** The analyzer [st] with [dist_list_] replaced by [d]; the members of the
    tracker are those of [st]. *)
Definition with_dist_list (d : list float) (st : GameVideoAnalyzer)
    : GameVideoAnalyzer :=
  mkAnalyzer d (hero_id_ st) (is_heroes_list_initialized_ st)
    (last_updated_ st) (appearances_ st) (heroes_list_ st).

(** ** A frame of [main] *)

(** [seen_at ts out st]: every hero of the frame's [hero_status_list] [out]
    is stored in [st] under its identity, with [ts] as its time of last
    update. *)
Definition seen_at (ts : Z) (out : list HeroStatus) (st : GameVideoAnalyzer)
    : Prop :=
  forall h, h ∈ out ->
    exists (k : nat) (h' : HeroStatus),
      heroes_list_ st !! k = Some h'
      /\ hero_id h' = hero_id h
      /\ last_updated_ st !! k = Some ts.
(** * Facts about binary64 arithmetic

    Derived from the specification of the primitive operations
    ([FloatAxioms]) and the reference implementation [SpecFloat]. *)

Lemma digits2_pos_bounds p :
  2 ^ (Zpos (digits2_pos p) - 1) <= Zpos p < 2 ^ Zpos (digits2_pos p).
Proof.
  induction p as [p IH|p IH|]; cbn [digits2_pos]; [| |done].
  - rewrite Pos2Z.inj_succ, (Pos2Z.inj_xI p).
    replace (Z.succ (Zpos (digits2_pos p)) - 1)
      with (Z.succ (Zpos (digits2_pos p) - 1)) by lia.
    rewrite !Z.pow_succ_r by lia. lia.
  - rewrite Pos2Z.inj_succ, (Pos2Z.inj_xO p).
    replace (Z.succ (Zpos (digits2_pos p)) - 1)
      with (Z.succ (Zpos (digits2_pos p) - 1)) by lia.
    rewrite !Z.pow_succ_r by lia. lia.
Qed.


Lemma Zdigits2_le m k : 0 <= m -> 0 <= k -> m < 2 ^ k -> Zdigits2 m <= k.
Proof.
  intros Hm Hk Hlt. destruct m as [|p|p]; [done| |lia]. simpl.
  pose proof (digits2_pos_bounds p) as [Hlo _].
  assert (2 ^ (Zpos (digits2_pos p) - 1) < 2 ^ k) as Hpow by lia.
  apply Z.pow_lt_mono_r_iff in Hpow; lia.
Qed.




Lemma loc_of_shr_record_of_loc m l :
  loc_of_shr_record (shr_record_of_loc m l) = l.
Proof. by destruct l as [|[]]. Qed.





Lemma SFdiv_core_binary_spec m1 e1 m2 e2 :
  0 < m1 -> 0 < m2 ->
  let '(q, e', l) := SFdiv_core_binary prec emax m1 e1 m2 e2 in
  e' = Z.min (fexp prec emax (Zdigits2 m1 + e1 - (Zdigits2 m2 + e2))) (e1 - e2)
  /\ q = m1 * 2 ^ (e1 - e2 - e') / m2
  /\ l = new_location m2 ((m1 * 2 ^ (e1 - e2 - e')) mod m2).
Proof.
  intros Hm1 Hm2. unfold SFdiv_core_binary.
  set (e' := Z.min _ _). set (s := e1 - e2 - e').
  assert (0 <= s) by (unfold s, e'; lia).
  set (m' := match s with Z0 => m1 | Zpos _ => Z.shiftl m1 s | Zneg _ => 0 end).
  assert (Hm' : m' = m1 * 2 ^ s).
  { unfold m'. destruct s as [|p|p]; [simpl; lia| |lia].
    by rewrite Z.shiftl_mul_pow2. }
  pose proof (eq_refl : m' / m2 = let (q, _) := Z.div_eucl m' m2 in q) as Hq.
  pose proof (eq_refl : m' mod m2 = let (_, r) := Z.div_eucl m' m2 in r) as Hr.
  destruct (Z.div_eucl m' m2) as [q r]. split; [done|].
  by rewrite <- Hq, <- Hr, Hm'.
Qed.




(** ** Conversion of integers *)

Lemma digits2_pos_shiftl p (n : N) :
  Zpos (digits2_pos (Pos.shiftl p n)) = Zpos (digits2_pos p) + Z.of_N n.
Proof.
  unfold Pos.shiftl. destruct n as [|k]; [lia|]. cbn [Z.of_N].
  induction k as [|k IH] using Pos.peano_ind.
  - cbn [Pos.iter digits2_pos]. lia.
  - rewrite Pos.iter_succ. cbn [digits2_pos]. lia.
Qed.

(** The conversion of a positive integer of at most 53 bits is a positive
    finite number. *)
Lemma Prim2SF_of_int_pos n :
  0 < n < 2 ^ 53 ->
  exists m e, Prim2SF (of_int n) = S754_finite false m e.
Proof.
  intros [Hpos Hlt]. destruct n as [|p|p]; [lia| |lia].
  unfold of_int, int_to_SF.
  assert (Hd : Zpos (digits2_pos p) <= 53)
    by (apply (Zdigits2_le (Zpos p)); lia).
  destruct (Z.leb_spec (Zpos (digits2_pos p)) prec) as [_|Hgt];
    [|unfold prec in Hgt; lia].
  eexists _, _. apply Prim2SF_SF2Prim.
  simpl. unfold bounded, canonical_mantissa.
  rewrite digits2_pos_shiftl.
  unfold fexp, emin, prec, emax. apply andb_true_intro. split.
  - apply Z.eqb_eq. lia.
  - apply Z.leb_le. lia.
Qed.

Lemma Prim2SF_of_int_nonneg n :
  0 <= n < 2 ^ 53 -> SF_not_negative (Prim2SF (of_int n)).
Proof.
  intros [Hpos Hlt]. destruct (Z.eq_dec n 0) as [->|Hn]; [done|].
  destruct (Prim2SF_of_int_pos n) as (m & e & ->); [lia | done].
Qed.

(** ** Signs *)

Lemma binary_round_aux_sign s m e l :
  match binary_round_aux prec emax s m e l with
  | S754_zero s' | S754_finite s' _ _ | S754_infinity s' => s' = s
  | S754_nan => True
  end.
Proof.
  unfold binary_round_aux.
  destruct (shr_fexp prec emax m e l) as [mrs' e'].
  destruct (shr_fexp prec emax _ e' loc_Exact) as [mrs'' e''].
  destruct (shr_m mrs'') as [|p|p]; [done| |done].
  by destruct (e'' <=? emax - prec).
Qed.

Lemma binary_round_aux_not_negative m e l :
  SF_not_negative (binary_round_aux prec emax false m e l).
Proof.
  pose proof (binary_round_aux_sign false m e l) as H.
  by destruct (binary_round_aux prec emax false m e l).
Qed.

Lemma binary_round_not_negative mx ex :
  SF_not_negative (binary_round prec emax false mx ex).
Proof.
  unfold binary_round. destruct (shl_align mx ex _) as [mz ez].
  apply binary_round_aux_not_negative.
Qed.

(** Adding a positive finite number to a number that is not negative. *)
Lemma SFadd_not_negative x my ey :
  SF_not_negative x ->
  SF_not_negative (SFadd prec emax x (S754_finite false my ey)).
Proof.
  destruct x as [s|s| |s m e]; cbn [SF_not_negative]; intros Hs;
    [done|done|done|subst s].
  unfold SFadd.
  destruct (shl_align m e _) as [m1 e1], (shl_align my ey _) as [m2 e2].
  cbn [fst cond_Zopp Z.add binary_normalize].
  apply binary_round_not_negative.
Qed.

Lemma SFdiv_not_negative x y :
  SF_not_negative x -> SF_not_negative y ->
  SF_not_negative (SFdiv prec emax x y).
Proof.
  destruct x as [sx|sx| |sx mx ex], y as [sy|sy| |sy my ey];
    cbn [SF_not_negative SFdiv]; intros; subst; try done.
  destruct (SFdiv_core_binary _ _ _ _ _ _) as [[mz ez] lz].
  apply binary_round_aux_not_negative.
Qed.

Lemma ltb_zero_not_negative x :
  SF_not_negative (Prim2SF x) -> (x <? 0)%float = false.
Proof.
  rewrite ltb_spec. change (Prim2SF 0) with (S754_zero false).
  destruct (Prim2SF x) as [s|s| |s m e]; cbn [SF_not_negative];
    intros; subst; done.
Qed.

(** A number that is not negative, not the zero and comparable is
    positive. *)
Lemma zero_ltb_not_negative x bound :
  SF_not_negative (Prim2SF x) -> x <> 0%float ->
  (x <? bound)%float = true -> (0 <? x)%float = true.
Proof.
  rewrite !ltb_spec. change (Prim2SF 0) with (S754_zero false).
  intros Hs Hx Hlt.
  destruct (Prim2SF x) as [s|s| |s m e] eqn:Hp; cbn [SF_not_negative] in Hs;
    subst; try done.
  destruct Hx. by apply Prim2SF_inj.
Qed.

(** ** Quotients *)

(** A number divided by itself is 1, or not-a-number when it is a zero, an
    infinity or not-a-number. *)
Lemma div_self x :
  Prim2SF (x / x) = S754_nan \/ (x / x)%float = 1%float.
Proof.
  rewrite div_spec.
  destruct (Prim2SF x) as [s|s| |s m e] eqn:Hp; try (by left).
  right. apply Prim2SF_inj. rewrite div_spec, Hp.
  unfold SF64div, SFdiv.
  pose proof (SFdiv_core_binary_spec (Zpos m) e (Zpos m) e eq_refl eq_refl)
    as Hcore.
  destruct (SFdiv_core_binary _ _ _ _ _ _) as [[q e'] l].
  destruct Hcore as (He' & Hq & Hl).
  assert (e' = -53) as ->
    by (rewrite He'; unfold fexp, emin, prec, emax; lia).
  replace (e - e - -53) with 53 in Hq, Hl by lia.
  rewrite Z.mul_comm, Z.div_mul in Hq by lia.
  rewrite Z.mul_comm, Z.mod_mul in Hl by lia.
  assert (l = loc_Exact) as ->.
  { subst l. unfold new_location, new_location_even, new_location_odd.
    by destruct (Z.even (Zpos m)). }
  subst q. replace (xorb s s) with false by (by destruct s).
  by vm_compute.
Qed.

(** Zero divided by a positive finite number is the zero. *)
Lemma zero_div_positive y m e :
  Prim2SF y = S754_finite false m e -> (0 / y)%float = 0%float.
Proof.
  intros Hy. apply Prim2SF_inj. rewrite div_spec, Hy. done.
Qed.

(** * The hero tracker *)

(** ** The shape of one [assign_hero] call *)

Lemma nearest_loop_range pos heroes i dist_min i_min :
  let r := snd (nearest_loop pos heroes i dist_min i_min) in
  r = i_min \/ (Z.of_nat i <= r < Z.of_nat (i + length heroes)).
Proof.
  revert i dist_min i_min.
  induction heroes as [|h rest IH]; intros i dist_min i_min; simpl.
  - by left.
  - destruct (_ <? _)%float.
    + destruct (IH (S i) (point_dist pos (position h)) (Z.of_nat i))
        as [->|?]; right; lia.
    + destruct (IH (S i) dist_min i_min) as [->|?]; [by left | right; lia].
Qed.

Lemma nearest_hero_range pos heroes :
  nearest_hero pos heroes = -1
  \/ 0 <= nearest_hero pos heroes < Z.of_nat (length heroes).
Proof.
  unfold nearest_hero.
  destruct (nearest_loop_range pos heroes 0 20%float (-1)) as [->|?];
    [by left | right; simpl in *; lia].
Qed.

Lemma assign_hero_outcome lvl pos out ts st :
  assign_outcome lvl pos out ts st (assign_hero lvl pos out ts st).
Proof.
  unfold assign_hero.
  destruct (is_heroes_list_initialized_ st) eqn:Hinit; simpl;
    [|constructor].
  destruct (nearest_hero_range pos (heroes_list_ st)) as [->|Hr];
    [constructor|].
  repeat match goal with
         | |- context [if ?b then _ else _] => destruct b
         end;
    try constructor; try lia; done.
Qed.

Lemma parallel_push lvl pos ts out st :
  parallel st -> parallel (snd (push_new_hero lvl pos ts out st)).
Proof. intros [? ?]; split; simpl; rewrite !length_app; simpl; lia. Qed.

Lemma parallel_merge i lvl pos ts bump out st :
  parallel st -> parallel (snd (merge_hero i lvl pos ts bump out st)).
Proof. intros [? ?]; split; simpl; by rewrite !length_insert. Qed.

(** [assign_hero] keeps the three vectors in step. *)
Lemma parallel_assign_hero lvl pos out ts st :
  parallel st -> parallel (snd (assign_hero lvl pos out ts st)).
Proof.
  intros Hp. destruct (assign_hero_outcome lvl pos out ts st);
    auto using parallel_push, parallel_merge.
Qed.

Lemma ids_merge i lvl pos ts bump out st :
  ids (snd (merge_hero i lvl pos ts bump out st)) = ids st.
Proof.
  unfold ids; simpl. rewrite list_fmap_insert; simpl.
  apply list_insert_id'. intros Hi.
  rewrite list_lookup_fmap, list_lookup_lookup_total_lt; [done|].
  by rewrite length_fmap in Hi.
Qed.

(** The growth of the identity list under one call: nothing, or the next
    free identity, and the counter advances by as much. *)
Lemma assign_hero_ids lvl pos out ts st :
  exists k : nat,
    (k <= 1)%nat
    /\ ids (snd (assign_hero lvl pos out ts st))
       = ids st ++ seqZ (hero_id_ st) (Z.of_nat k)
    /\ hero_id_ (snd (assign_hero lvl pos out ts st))
       = hero_id_ st + Z.of_nat k
    /\ length (fst (assign_hero lvl pos out ts st)) = S (length out)
    /\ is_heroes_list_initialized_ (snd (assign_hero lvl pos out ts st))
       = is_heroes_list_initialized_ st.
Proof.
  destruct (assign_hero_outcome lvl pos out ts st).
  - exists 1%nat. unfold ids; simpl.
    rewrite fmap_app, length_app; simpl. repeat split; auto; lia.
  - exists 0%nat. rewrite ids_merge; simpl.
    rewrite app_nil_r, length_app; simpl. repeat split; auto; lia.
Qed.

(** ** Runs: the identities grow by consecutive fresh numbers *)

Lemma grows_refl st : grows_spec st st 0.
Proof. split; simpl; [by rewrite app_nil_r | lia]. Qed.

Lemma grows_trans st1 st2 st3 k1 k2 :
  grows_spec st1 st2 k1 -> grows_spec st2 st3 k2 ->
  grows_spec st1 st3 (k1 + k2).
Proof.
  intros [Hi1 Hc1] [Hi2 Hc2]. split.
  - rewrite Hi2, Hi1, Hc1, Nat2Z.inj_add, seqZ_app by lia.
    by rewrite <- app_assoc.
  - lia.
Qed.

Lemma grows_assign lvl pos out ts st :
  exists k, grows_spec st (snd (assign_hero lvl pos out ts st)) k.
Proof.
  destruct (assign_hero_ids lvl pos out ts st) as (k & _ & ? & ? & _).
  by exists k.
Qed.

Lemma compose_step_grows rect_num_vec ts flags out st i :
  let s' := compose_step rect_num_vec ts (flags, out, st) i in
  (exists k, grows_spec st (snd s') k)
  /\ (parallel st -> parallel (snd s')).
Proof.
  unfold compose_step.
  destruct (negb _); [simpl; split; [exists 0%nat; apply grows_refl | done]|].
  destruct (rect_num_vec !! i) as [[p1 num1]|];
    [|simpl; split; [exists 0%nat; apply grows_refl | done]].
  destruct (find_partner _ _ _ _) as [[[j hero_level] anchor]|].
  - pose proof (grows_assign hero_level anchor out ts st) as Hg.
    pose proof (parallel_assign_hero hero_level anchor out ts st) as Hp.
    by destruct (assign_hero hero_level anchor out ts st).
  - destruct (num1 >? 0);
      [|simpl; split; [exists 0%nat; apply grows_refl | done]].
    pose proof (grows_assign num1 p1 out ts st) as Hg.
    pose proof (parallel_assign_hero num1 p1 out ts st) as Hp.
    by destruct (assign_hero num1 p1 out ts st).
Qed.

Lemma compose_loop_grows rect_num_vec ts js flags out st :
  let s' := foldl (compose_step rect_num_vec ts) (flags, out, st) js in
  (exists k, grows_spec st (snd s') k)
  /\ (parallel st -> parallel (snd s')).
Proof.
  revert flags out st.
  induction js as [|j js IH]; intros flags out st; cbn [foldl].
  - split; [exists 0%nat; apply grows_refl | done].
  - destruct (compose_step_grows rect_num_vec ts flags out st j)
      as [[k1 Hg1] Hp1].
    destruct (compose_step rect_num_vec ts (flags, out, st) j)
      as [[flags' out'] st']; cbn [snd] in Hg1, Hp1.
    destruct (IH flags' out' st') as [[k2 Hg2] Hp2].
    split; [exists (k1 + k2)%nat; by eapply grows_trans | auto].
Qed.

Lemma track_hero_grows rect_num_vec ts st :
  (exists k, grows_spec st (snd (track_hero rect_num_vec ts st)) k)
  /\ (parallel st -> parallel (snd (track_hero rect_num_vec ts st))).
Proof.
  unfold track_hero.
  pose proof (compose_loop_grows rect_num_vec ts
                (seq 0 (length rect_num_vec))
                (replicate (length rect_num_vec) true) [] st) as H.
  destruct (foldl _ _ _) as [[flags out] st']; simpl in *.
  destruct H as [[k [Hi Hc]] Hp]. split; [by exists k | done].
Qed.

(** ** Eviction *)

Lemma erase_hero_length i st :
  (length (heroes_list_ (erase_hero i st)) <= length (heroes_list_ st))%nat.
Proof.
  simpl. pose proof (sublist_length _ _ (sublist_delete (heroes_list_ st) i)).
  lia.
Qed.

(** The loop of [delete_inactive_heroes] leaves through its condition
    [i < heroes_list_.size()]: fuel beyond [size - i] is never used. *)
Lemma delete_loop_terminates fuel fuel' ts inactive_time num_app i st :
  (length (heroes_list_ st) - i <= fuel)%nat -> (fuel <= fuel')%nat ->
  delete_loop fuel' ts inactive_time num_app i st
  = delete_loop fuel ts inactive_time num_app i st.
Proof.
  revert fuel' i st.
  induction fuel as [|fuel IH]; intros fuel' i st Hlen Hle.
  - destruct fuel'; simpl; [done|].
    destruct (Nat.ltb_spec i (length (heroes_list_ st))); [lia | done].
  - destruct fuel'; [lia|]. simpl.
    destruct (Nat.ltb_spec i (length (heroes_list_ st))); [|done].
    apply IH; [|lia].
    destruct (is_inactive _ _ _ _ _); [|lia].
    pose proof (erase_hero_length i st). lia.
Qed.

Lemma delete_loop_sub fuel ts inactive_time num_app i st :
  let st' := delete_loop fuel ts inactive_time num_app i st in
  ids st' `sublist_of` ids st /\ hero_id_ st' = hero_id_ st
  /\ (parallel st -> parallel st').
Proof.
  revert i st. induction fuel as [|fuel IH]; intros i st; simpl; [done|].
  destruct (_ <? _)%nat eqn:Hi; [|done].
  destruct (is_inactive _ _ _ _ _); [|apply IH].
  destruct (IH (S i) (erase_hero i st)) as (Hs & Hc & Hp).
  apply Nat.ltb_lt in Hi.
  split; [|split]; [| done |].
  - etrans; [exact Hs|]. unfold ids; simpl.
    apply fmap_sublist, sublist_delete.
  - intros [H1 H2]. apply Hp. split; simpl;
      rewrite !length_delete; try lia;
      apply lookup_lt_is_Some; lia.
Qed.

Lemma Forall_sublist {A} (P : A -> Prop) (l k : list A) :
  l `sublist_of` k -> Forall P k -> Forall P l.
Proof.
  intros Hs Hk. apply Forall_forall. intros x Hx.
  eapply (proj1 (Forall_forall P k)); [done|]. by eapply elem_of_sublist.
Qed.

Lemma StronglySorted_sublist (l k : list Z) :
  l `sublist_of` k -> StronglySorted Z.lt k -> StronglySorted Z.lt l.
Proof.
  induction 1 as [|x l k Hs IH|x l k Hs IH]; intros Hk; [done|..];
    apply StronglySorted_inv in Hk as [Hk Hx].
  - constructor; [auto|]. by eapply Forall_sublist.
  - auto.
Qed.

(** ** The identity invariant along runs *)

Lemma StronglySorted_seqZ m (k : nat) :
  StronglySorted Z.lt (seqZ m (Z.of_nat k)).
Proof.
  induction k as [|k IH]; [rewrite seqZ_nil by lia; constructor|].
  rewrite seqZ_S. apply StronglySorted_app_2; [|done|repeat constructor].
  intros x1 x2 Hx1%elem_of_seqZ Hx2%list_elem_of_singleton. lia.
Qed.

Lemma StronglySorted_lt_NoDup (l : list Z) :
  StronglySorted Z.lt l -> NoDup l.
Proof.
  induction 1 as [|x l Hs IH Hx]; constructor; [|done].
  intros Hin. apply (proj1 (Forall_forall _ _) Hx) in Hin. lia.
Qed.

Lemma ids_fresh_grows st st' k :
  ids_fresh st -> grows_spec st st' k -> ids_fresh st'.
Proof.
  intros (Hs & Hb & H0) [Hi Hc]. split; [|split; [|lia]]; rewrite Hi.
  - apply StronglySorted_app_2; [|done|apply StronglySorted_seqZ].
    intros x1 x2 Hx1 Hx2%elem_of_seqZ.
    apply (proj1 (Forall_forall _ _) Hb) in Hx1. lia.
  - apply Forall_app. split.
    + eapply Forall_impl; [exact Hb|]. simpl; lia.
    + apply Forall_seqZ. lia.
Qed.

Lemma ids_fresh_delete ts inactive_time num_app st :
  ids_fresh st -> ids_fresh (delete_inactive_heroes ts inactive_time num_app st).
Proof.
  intros (Hs & Hb & H0). unfold delete_inactive_heroes.
  destruct (delete_loop_sub (length (heroes_list_ st)) ts inactive_time
              num_app 0 st) as (Hsub & Hc & _).
  split; [by eapply StronglySorted_sublist|].
  rewrite Hc. split; [by eapply Forall_sublist | done].
Qed.

(** Every operation appends entities under consecutive fresh identities, or
    only removes entities and leaves the counter alone. *)
Lemma run_op_ids op st :
  ids_fresh st ->
  exists k : nat,
    created_by op st = seqZ (hero_id_ st) (Z.of_nat k)
    /\ hero_id_ (run_op op st) = hero_id_ st + Z.of_nat k
    /\ ids_fresh (run_op op st).
Proof.
  intros Hf.
  assert (Hdrop : forall st' k, grows_spec st st' k ->
            drop (length (heroes_list_ st)) (ids st')
            = seqZ (hero_id_ st) (Z.of_nat k)).
  { intros st' k [-> _]. apply drop_app_length'. unfold ids.
    by rewrite length_fmap. }
  destruct op as [lvl pos ts|rect_num_vec ts|ts inactive_time num_app].
  - destruct (grows_assign lvl pos [] ts st) as [k Hg]. exists k.
    simpl. split; [eauto|]. split; [apply Hg | by eapply ids_fresh_grows].
  - destruct (track_hero_grows rect_num_vec ts st) as [[k Hg] _]. exists k.
    simpl. split; [eauto|]. split; [apply Hg | by eapply ids_fresh_grows].
  - exists 0%nat. simpl. split; [by rewrite seqZ_nil|].
    split; [|by apply ids_fresh_delete].
    unfold delete_inactive_heroes.
    destruct (delete_loop_sub (length (heroes_list_ st)) ts inactive_time
                num_app 0 st) as (_ & -> & _). lia.
Qed.

Lemma run_ids ops st :
  ids_fresh st ->
  exists k : nat,
    created_ids ops st = seqZ (hero_id_ st) (Z.of_nat k)
    /\ hero_id_ (run ops st) = hero_id_ st + Z.of_nat k
    /\ ids_fresh (run ops st).
Proof.
  revert st. induction ops as [|op ops IH]; intros st Hf.
  - exists 0%nat. simpl. rewrite seqZ_nil by lia. split; [done|].
    split; [lia | done].
  - destruct (run_op_ids op st Hf) as (k1 & Hc1 & Hn1 & Hf1).
    destruct (IH _ Hf1) as (k2 & Hc2 & Hn2 & Hf2).
    exists (k1 + k2)%nat. cbn [created_ids run foldl].
    fold (run ops (run_op op st)).
    rewrite Hc1, Hc2, Hn1, Nat2Z.inj_add, seqZ_app by lia.
    split; [done|]. split; [lia | done].
Qed.

Lemma ids_fresh_new : ids_fresh new_analyzer.
Proof. split; [constructor|]. split; [constructor | done]. Qed.

Lemma parallel_new : parallel new_analyzer.
Proof. done. Qed.

Lemma parallel_run ops st : parallel st -> parallel (run ops st).
Proof.
  revert st. induction ops as [|op ops IH]; intros st Hp; [done|].
  cbn [run foldl]. fold (run ops (run_op op st)). apply IH.
  destruct op as [lvl pos ts|rect_num_vec ts|ts inactive_time num_app]; simpl.
  - by apply parallel_assign_hero.
  - by apply track_hero_grows.
  - by apply delete_loop_sub.
Qed.

(** C8.  Along every sequence of tracker operations (assignments, whole
    frames and evictions, in any order) started on a fresh analyzer, the
    identities given to newly created entities are 0, 1, 2, ... in order of
    creation, one per entity: they increase strictly, none is given twice,
    also not after its entity was evicted; and the identities stored in
    [heroes_list_] at the end are pairwise distinct, increase along the
    list, and are among those given out. *)
Theorem identities_unique_increasing (ops : list tracker_op) :
  let st := run ops new_analyzer in
  created_ids ops new_analyzer = seqZ 0 (hero_id_ st)
  /\ StronglySorted Z.lt (created_ids ops new_analyzer)
  /\ NoDup (created_ids ops new_analyzer)
  /\ StronglySorted Z.lt (ids st)
  /\ NoDup (ids st)
  /\ (forall id, id ∈ ids st -> id ∈ created_ids ops new_analyzer).
Proof.
  destruct (run_ids ops new_analyzer ids_fresh_new)
    as (k & Hc & Hn & Hs & Hb & _).
  simpl in Hc, Hn. cbv zeta. rewrite Hc, Hn, Z.add_0_l.
  split; [done|]. split; [apply StronglySorted_seqZ|].
  split; [apply NoDup_seqZ|]. split; [done|].
  split; [by apply StronglySorted_lt_NoDup|].
  intros id Hid. apply elem_of_seqZ.
  apply (proj1 (Forall_forall _ _) Hb) in Hid. lia.
Qed.

(** ** The first frame *)

Lemma assign_hero_uninitialized lvl pos out ts st :
  is_heroes_list_initialized_ st = false ->
  assign_hero lvl pos out ts st = push_new_hero lvl pos ts out st.
Proof. unfold assign_hero. by intros ->. Qed.

Lemma first_frame_push st0 lvl pos ts out st :
  first_frame_inv st0 out st ->
  first_frame_inv st0 (fst (push_new_hero lvl pos ts out st))
    (snd (push_new_hero lvl pos ts out st)).
Proof.
  intros (Hinit & Hh & Ha & Hi & Hc). unfold first_frame_inv; simpl.
  rewrite Hh, Ha, Hc, fmap_app, Hi, length_app; simpl.
  rewrite Nat.add_1_r, seqZ_S, replicate_S_end, <- !app_assoc.
  repeat split; auto; lia.
Qed.

Lemma first_frame_step st0 rect_num_vec ts flags out st i :
  first_frame_inv st0 out st ->
  let '(_, out', st') := compose_step rect_num_vec ts (flags, out, st) i in
  first_frame_inv st0 out' st'.
Proof.
  intros Hinv. pose proof Hinv as (Hinit & _). unfold compose_step.
  destruct (negb _); [done|].
  destruct (rect_num_vec !! i) as [[p1 num1]|]; [|done].
  destruct (find_partner _ _ _ _) as [[[j hero_level] anchor]|].
  - rewrite assign_hero_uninitialized by done.
    by apply first_frame_push.
  - destruct (num1 >? 0); [|done].
    rewrite assign_hero_uninitialized by done.
    by apply first_frame_push.
Qed.

Lemma first_frame_loop st0 rect_num_vec ts js flags out st :
  first_frame_inv st0 out st ->
  let '(_, out', st') :=
    foldl (compose_step rect_num_vec ts) (flags, out, st) js in
  first_frame_inv st0 out' st'.
Proof.
  revert flags out st.
  induction js as [|j js IH]; intros flags out st Hinv; cbn [foldl]; [done|].
  pose proof (first_frame_step st0 rect_num_vec ts flags out st j Hinv) as H.
  destruct (compose_step rect_num_vec ts (flags, out, st) j)
    as [[flags' out'] st'].
  by apply IH.
Qed.

(** C10.  While [is_heroes_list_initialized_] is still false, that is during
    the first processed frame, [assign_hero] takes its first branch whatever
    the stored entities are: no nearest-neighbour search, no merge.  Every
    reading that [track_hero] composes in that frame is appended to
    [heroes_list_] as a new entity with one appearance and the next free
    identity, and the flag is set at the end of the call.  In particular two
    readings at the same position with the same level, in the first frame
    of a fresh analyzer, become the two entities 0 and 1. *)
Theorem first_frame_creates_every_reading
    (rect_num_vec : list (Point * Z)) (ts : Z) (st : GameVideoAnalyzer) :
  is_heroes_list_initialized_ st = false ->
  (forall lvl pos out,
      assign_hero lvl pos out ts st = push_new_hero lvl pos ts out st)
  /\ (let '(out, st') := track_hero rect_num_vec ts st in
      heroes_list_ st' = heroes_list_ st ++ out
      /\ appearances_ st' = appearances_ st ++ replicate (length out) 1
      /\ hero_id <$> out = seqZ (hero_id_ st) (Z.of_nat (length out))
      /\ is_heroes_list_initialized_ st' = true)
  /\ (let '(out, st') :=
        track_hero [(mkPoint 100 100, 5); (mkPoint 100 100, 5)] 0
          new_analyzer in
      out = [mkHero 0 (mkPoint 100 100) 5; mkHero 1 (mkPoint 100 100) 5]
      /\ heroes_list_ st' = out /\ appearances_ st' = [1; 1]).
Proof.
  intros Hinit. split; [|split].
  - intros. by apply assign_hero_uninitialized.
  - unfold track_hero.
    assert (Hinv : first_frame_inv st [] st).
    { unfold first_frame_inv; simpl.
      rewrite !app_nil_r. repeat split; auto; lia. }
    pose proof (first_frame_loop st rect_num_vec ts
                  (seq 0 (length rect_num_vec))
                  (replicate (length rect_num_vec) true) [] st Hinv) as H.
    destruct (foldl _ _ _) as [[flags out] st'].
    destruct H as (_ & Hh & Ha & Hi & _). by simpl.
  - by vm_compute.
Qed.

Lemma first_frame_creates_every_reading_witness :
  is_heroes_list_initialized_ new_analyzer = false
  /\ fst (track_hero [(mkPoint 100 100, 5); (mkPoint 100 100, 5)] 0
            new_analyzer)
     = [mkHero 0 (mkPoint 100 100) 5; mkHero 1 (mkPoint 100 100) 5].
Proof.
  split; [reflexivity|].
  pose proof (first_frame_creates_every_reading
                [(mkPoint 100 100, 5); (mkPoint 100 100, 5)] 0 new_analyzer
                eq_refl) as (_ & _ & H).
  destruct (track_hero _ _ _) as [out st']. by destruct H as [-> _].
Defined.

(** ** Composition of digit pairs *)

Lemma assign_hero_reports lvl pos out ts st :
  exists id, fst (assign_hero lvl pos out ts st) = out ++ [mkHero id pos lvl].
Proof.
  destruct (assign_hero_outcome lvl pos out ts st); simpl; eauto.
Qed.

(** C1 (as the code has it).  When two digit readings are paired (vertical
    coordinates less than 3 apart, horizontal distance strictly between 8
    and 15) and the level read off the pair is at most 15, [track_hero]
    reports exactly one reading for the pair; its level has the digit of the
    reading with the smaller x-coordinate as tens digit and the digit of the
    reading with the larger x-coordinate as units digit, and its position is
    the point with the larger x-coordinate.  In particular (x=10,y=5,digit=1)
    and (x=20,y=5,digit=3) compose to the level 13 at (20,5). *)
Theorem pair_reads_left_to_right
    (p1 p2 : Point) (num1 num2 ts : Z) (st : GameVideoAnalyzer) :
  same_icon p1 p2 = true ->
  pair_level p1 num1 p2 num2 <= 15 ->
  (exists id,
      fst (track_hero [(p1, num1); (p2, num2)] ts st)
      = [mkHero id (pair_anchor p1 p2) (pair_level p1 num1 p2 num2)])
  /\ (pt_x p1 < pt_x p2 ->
      pair_level p1 num1 p2 num2 = 10 * num1 + num2
      /\ pair_anchor p1 p2 = p2)
  /\ (pt_x p2 < pt_x p1 ->
      pair_level p1 num1 p2 num2 = 10 * num2 + num1
      /\ pair_anchor p1 p2 = p1)
  /\ pt_x p1 <> pt_x p2
  /\ fst (track_hero [(mkPoint 10 5, 1); (mkPoint 20 5, 3)] 0 new_analyzer)
     = [mkHero 0 (mkPoint 20 5) 13].
Proof.
  intros Hicon Hlvl. split; [|split; [|split; [|split]]].
  - unfold track_hero. cbn [length seq foldl replicate].
    unfold compose_step at 2. cbn [lookup_total list_lookup_total negb].
    cbn [lookup list_lookup drop find_partner].
    rewrite Hicon. apply Z.leb_le in Hlvl. rewrite Hlvl. cbn [andb].
    destruct (assign_hero_reports (pair_level p1 num1 p2 num2)
                (pair_anchor p1 p2) [] ts st) as [id Hid].
    destruct (assign_hero _ _ _ _ _) as [out' st']. simpl in Hid.
    exists id. unfold compose_step. by simpl.
  - intros Hlt. unfold pair_level, pair_anchor.
    destruct (Z.gtb_spec (pt_x p1) (pt_x p2)); [lia|]. split; [lia | done].
  - intros Hlt. unfold pair_level, pair_anchor.
    destruct (Z.gtb_spec (pt_x p1) (pt_x p2)); [|lia]. split; [lia | done].
  - unfold same_icon in Hicon.
    apply andb_prop in Hicon as [_ Hgt]. apply Z.gtb_gt in Hgt. lia.
  - by vm_compute.
Qed.

Lemma pair_reads_left_to_right_witness :
  same_icon (mkPoint 10 5) (mkPoint 20 5) = true
  /\ pair_level (mkPoint 10 5) 1 (mkPoint 20 5) 3 <= 15
  /\ pair_level (mkPoint 10 5) 1 (mkPoint 20 5) 3 = 10 * 1 + 3
  /\ pair_anchor (mkPoint 10 5) (mkPoint 20 5) = mkPoint 20 5.
Proof.
  split; [reflexivity|]. split; [by vm_compute|].
  refine (proj1 (proj2 (pair_reads_left_to_right (mkPoint 10 5)
            (mkPoint 20 5) 1 3 0 new_analyzer eq_refl _)) _);
    by vm_compute.
Defined.

(** C1 as stated fails: for the readings (x=10,y=5,digit=3) and
    (x=20,y=5,digit=1), which do satisfy the pairing condition, the pair
    reads 31, not 13, the left digit being the tens digit; 31 exceeds 15, so
    the two readings are reported separately, as levels 3 and 1. *)
Lemma pair_13_counterexample :
  same_icon (mkPoint 10 5) (mkPoint 20 5) = true
  /\ pair_level (mkPoint 10 5) 3 (mkPoint 20 5) 1 = 31
  /\ fst (track_hero [(mkPoint 10 5, 3); (mkPoint 20 5, 1)] 0 new_analyzer)
     = [mkHero 0 (mkPoint 10 5) 3; mkHero 1 (mkPoint 20 5) 1]
  /\ fst (track_hero [(mkPoint 10 5, 3); (mkPoint 20 5, 1)] 0 new_analyzer)
     <> [mkHero 0 (mkPoint 20 5) 13].
Proof. by vm_compute. Qed.

(** ** Eviction skips the successor of an evicted entity *)

(** What eviction does get right: an entity that is not both stale and
    below the appearance floor is still stored after the loop, with its
    timestamp and its appearance count. *)
Lemma delete_loop_keeps_active fuel ts inactive_time num_app i st j h lu ap :
  heroes_list_ st !! j = Some h ->
  last_updated_ st !! j = Some lu ->
  appearances_ st !! j = Some ap ->
  (ts - lu >? inactive_time) && (ap <? num_app) = false ->
  exists j',
    let st' := delete_loop fuel ts inactive_time num_app i st in
    heroes_list_ st' !! j' = Some h
    /\ last_updated_ st' !! j' = Some lu
    /\ appearances_ st' !! j' = Some ap.
Proof.
  revert i st j. induction fuel as [|fuel IH]; intros i st j Hh Hl Ha Hact;
    cbn [delete_loop]; [by exists j|].
  destruct (_ <? _)%nat; [|by exists j].
  destruct (is_inactive ts inactive_time num_app i st) eqn:Hin;
    [|by apply (IH _ _ j)].
  assert (Hij : j <> i).
  { intros ->. unfold is_inactive in Hin.
    rewrite (list_lookup_total_correct _ _ _ Hl) in Hin.
    rewrite (list_lookup_total_correct _ _ _ Ha) in Hin. congruence. }
  destruct (decide (j < i)%nat) as [Hlt|Hge].
  - apply (IH _ _ j); cbn [erase_hero heroes_list_ last_updated_ appearances_];
      try done; by rewrite list_lookup_delete_lt.
  - apply (IH _ _ (j - 1)%nat);
      cbn [erase_hero heroes_list_ last_updated_ appearances_]; try done;
      rewrite list_lookup_delete_ge by lia;
      by replace (S (j - 1)) with j by lia.
Qed.

Lemma delete_keeps_active ts inactive_time num_app st j h lu ap :
  heroes_list_ st !! j = Some h ->
  last_updated_ st !! j = Some lu ->
  appearances_ st !! j = Some ap ->
  (ts - lu >? inactive_time) && (ap <? num_app) = false ->
  exists j',
    let st' := delete_inactive_heroes ts inactive_time num_app st in
    heroes_list_ st' !! j' = Some h
    /\ last_updated_ st' !! j' = Some lu
    /\ appearances_ st' !! j' = Some ap.
Proof. apply delete_loop_keeps_active. Qed.

(** C2 (failing input).  Two fleeting detections of the first frame, both
    with one appearance and last seen at 0, are both stale and below the
    appearance floor at 1500 under window 1000 and floor 5.  The loop erases
    the first, moves on to index 1 without looking at the entity that slid
    into index 0, and stops: the second entity survives the call.  A second
    call removes it. *)
Theorem delete_inactive_skips_successor :
  let st := snd (track_hero [(mkPoint 100 100, 5); (mkPoint 300 100, 5)] 0
                   new_analyzer) in
  let st' := delete_inactive_heroes 1500 1000 5 st in
  heroes_list_ st
  = [mkHero 0 (mkPoint 100 100) 5; mkHero 1 (mkPoint 300 100) 5]
  /\ last_updated_ st = [0; 0] /\ appearances_ st = [1; 1]
  /\ is_inactive 1500 1000 5 0 st = true
  /\ is_inactive 1500 1000 5 1 st = true
  /\ heroes_list_ st' = [mkHero 1 (mkPoint 300 100) 5]
  /\ last_updated_ st' = [0] /\ appearances_ st' = [1]
  /\ heroes_list_ (delete_inactive_heroes 1500 1000 5 st') = [].
Proof. by vm_compute. Qed.

(** ** The four-reading scenario *)

(** C3.  On a fresh analyzer, four frames with one reading each:
    (100,100) level 5 at 0 creates entity 0 with one appearance; the same
    reading at 500 merges into entity 0, now with two appearances; (102,101)
    level 6 at 1000 merges into entity 0, whose level becomes 6 (position
    updated, three appearances); (102,101) level 6 at 4200 finds entity 0 as
    nearest neighbour, but 4200 - 1000 exceeds 3000, and creates entity 1.
    At 4000, exactly 3000 after the last sighting, the reading would still
    have merged.  The reports are the same when every frame is followed by
    the eviction call of [main]. *)
Theorem four_readings_scenario :
  let p := mkPoint 100 100 in
  let q := mkPoint 102 101 in
  let r1 := track_hero [(p, 5)] 0 new_analyzer in
  let r2 := track_hero [(p, 5)] 500 (snd r1) in
  let r3 := track_hero [(q, 6)] 1000 (snd r2) in
  let r4 := track_hero [(q, 6)] 4200 (snd r3) in
  let m1 := process_frame [(p, 5)] 0 new_analyzer in
  let m2 := process_frame [(p, 5)] 500 (snd m1) in
  let m3 := process_frame [(q, 6)] 1000 (snd m2) in
  let m4 := process_frame [(q, 6)] 4200 (snd m3) in
  (fst r1 = [mkHero 0 p 5]
   /\ heroes_list_ (snd r1) = [mkHero 0 p 5]
   /\ appearances_ (snd r1) = [1])
  /\ (fst r2 = [mkHero 0 p 5]
      /\ heroes_list_ (snd r2) = [mkHero 0 p 5]
      /\ appearances_ (snd r2) = [2])
  /\ (fst r3 = [mkHero 0 q 6]
      /\ heroes_list_ (snd r3) = [mkHero 0 q 6]
      /\ appearances_ (snd r3) = [3]
      /\ last_updated_ (snd r3) = [1000])
  /\ (nearest_hero q (heroes_list_ (snd r3)) = 0
      /\ fst r4 = [mkHero 1 q 6]
      /\ heroes_list_ (snd r4) = [mkHero 0 q 6; mkHero 1 q 6]
      /\ appearances_ (snd r4) = [3; 1]
      /\ last_updated_ (snd r4) = [1000; 4200])
  /\ fst (track_hero [(q, 6)] 4000 (snd r3)) = [mkHero 0 q 6]
  /\ (fst m1 = fst r1 /\ fst m2 = fst r2 /\ fst m3 = fst r3
      /\ fst m4 = fst r4).
Proof. by vm_compute. Qed.

(** * The joystick estimator *)

(** ** The angle *)




(** ** The distance statistic *)

(** C4 (failing input).  Two frames in which the detected circle is centred
    one pixel right of and one pixel below the axis record the distance
    sqrt 2 twice.  [std::accumulate] is called with the [int] 0, so each
    partial sum is truncated: the sum is 2, and the reported mean is 1
    where the arithmetic mean is sqrt 2; the reported deviation is 0.5857...
    where the sample standard deviation is 0.  On samples that are whole
    numbers, such as 3, 4, 5, nothing is lost: mean 4, deviation 1. *)
Theorem mean_sums_in_int (atan2 : float -> float -> float) :
  let c : Circle := (149.5, 149.5, 45)%float in
  let st1 := snd (estimate_joystick_angle atan2 [c] new_analyzer) in
  let st := snd (estimate_joystick_angle atan2 [c] st1) in
  circle_center c = mkPoint 207 560
  /\ dist_list_ st = [PrimFloat.sqrt 2; PrimFloat.sqrt 2]
  /\ accumulate_int (dist_list_ st) = 2
  /\ estimate_js_axis_status st None None
     = (Some 1%float, Some 0x1.2bec333018868p-1%float)
  /\ spec_mean (dist_list_ st) = PrimFloat.sqrt 2
  /\ spec_stddev (dist_list_ st) = Some 0%float
  /\ estimate_js_axis_status
       (mkAnalyzer [3; 4; 5]%float 0 false [] [] []) None None
     = (Some 4%float, Some 1%float).
Proof. by vm_compute. Qed.

(** C5 (failing input).  Only the empty sample list is guarded.  With one
    sample the division by [size() - 1], that is by 0, is carried out and
    its square root is stored in the output: for every sample [d] the
    deviation written is [sqrt(pow(d - mean, 2) / 0)].  For the single
    sample sqrt 2 this is +infinity (with mean 1), for the single sample 3
    it is not-a-number; the specified statistic is absent in both cases.
    With no sample at all both outputs are left untouched. *)
Theorem single_sample_divides_by_zero (atan2 : float -> float -> float) :
  (forall (d : float) (mean0 stdvar0 : option float) id init lu ap hl,
      let m := (of_int (to_int (of_int 0 + d)) / of_int 1)%float in
      estimate_js_axis_status (mkAnalyzer [d] id init lu ap hl) mean0 stdvar0
      = (Some m,
         Some (PrimFloat.sqrt ((0 + pow2 (d - m)) / of_int 0))%float))
  /\ (let st := snd (estimate_joystick_angle atan2
                       [(149.5, 149.5, 45)%float] new_analyzer) in
      dist_list_ st = [PrimFloat.sqrt 2]
      /\ estimate_js_axis_status st None None = (Some 1%float, Some infinity)
      /\ spec_stddev (dist_list_ st) = None)
  /\ estimate_js_axis_status (mkAnalyzer [3%float] 0 false [] [] []) None None
     = (Some 3%float, Some nan)
  /\ of_int 0 = 0%float
  /\ (forall mean0 stdvar0,
        estimate_js_axis_status new_analyzer mean0 stdvar0
        = (mean0, stdvar0)).
Proof.
  split; [done|]. split; [by vm_compute|]. split; [by vm_compute|].
  split; [by vm_compute | done].
Qed.

(** * The digit matcher *)

Lemma foldl_fixed {A B} (f : A -> B -> A) (l : list B) (a : A) :
  (forall x, x ∈ l -> f a x = a) -> foldl f a l = a.
Proof.
  induction l as [|x l IH]; intros Hf; cbn [foldl]; [done|].
  rewrite Hf by apply list_elem_of_here. apply IH.
  intros y Hy. apply Hf. by apply list_elem_of_further.
Qed.

Lemma foldl_invariant {A B} (P : A -> Prop) (f : A -> B -> A) (l : list B)
    (a : A) :
  P a -> (forall a x, P a -> P (f a x)) -> P (foldl f a l).
Proof. revert a. induction l; intros; cbn [foldl]; auto. Qed.

Lemma pixel_differs_same a : pixel_differs a a = false.
Proof.
  unfold pixel_differs.
  destruct (Z.eqb_spec a 255), (Z.eqb_spec a 0); simpl; try done; lia.
Qed.

(** No pixel of an image disagrees with the same pixel of an image that
    agrees with it on its whole extent. *)
Lemma count_errors_agree roi sample :
  (forall iy ix, (iy < rows roi)%nat -> (ix < cols roi)%nat ->
                 at_ roi iy ix = at_ sample iy ix) ->
  count_errors roi sample = 0%float.
Proof.
  intros Hag. unfold count_errors. apply foldl_fixed.
  intros iy Hiy%elem_of_seq. apply foldl_fixed.
  intros ix Hix%elem_of_seq.
  rewrite Hag by lia. by rewrite pixel_differs_same.
Qed.

Lemma count_errors_not_negative roi sample :
  SF_not_negative (Prim2SF (count_errors roi sample)).
Proof.
  unfold count_errors. apply foldl_invariant; [done|].
  intros acc iy Hacc. apply foldl_invariant; [done|].
  intros acc' ix Hacc'. destruct (pixel_differs _ _); [|done].
  rewrite add_spec. by apply SFadd_not_negative.
Qed.

Lemma ratio_accepts_same_shape roi sample :
  rows roi = rows sample -> cols roi = cols sample ->
  ratio_rejected roi sample = false.
Proof.
  intros Hr Hc. unfold ratio_rejected, hw_ratio. rewrite Hr, Hc.
  destruct (div_self (of_int (Z.of_nat (rows sample))
                      / of_int (Z.of_nat (cols sample)))) as [Hnan| ->];
    [|by vm_compute].
  rewrite !ltb_spec, Hnan. unfold SFltb.
  by destruct (Prim2SF 0x1.3333333333333p+0), (Prim2SF 0x1.999999999999ap-1).
Qed.

Lemma resize_nearest_same m iy ix :
  (iy < rows m)%nat -> (ix < cols m)%nat ->
  at_ (resize_nearest m (cols m) (rows m)) iy ix = at_ m iy ix.
Proof.
  intros Hy Hx. cbn [resize_nearest at_].
  rewrite !Nat.div_mul by lia. f_equal; lia.
Qed.

Lemma sub_mat_whole m :
  rows (sub_mat m (whole m)) = rows m
  /\ cols (sub_mat m (whole m)) = cols m
  /\ forall iy ix, at_ (sub_mat m (whole m)) iy ix = at_ m iy ix.
Proof.
  unfold sub_mat, whole; cbn [rows cols at_ r_x r_y r_width r_height].
  by rewrite !Nat2Z.id.
Qed.

(** The score of a template against itself is 0. *)
Lemma avg_err_self T :
  mat_nonempty T -> mat_small T ->
  avg_err_of (sub_mat T (whole T)) T = Some 0%float.
Proof.
  intros [Hr Hc] Hsmall. destruct (sub_mat_whole T) as (Hrows & Hcols & Hat).
  unfold avg_err_of. rewrite ratio_accepts_same_shape by done.
  f_equal. rewrite count_errors_agree.
  - cbn [resize_nearest rows cols].
    destruct (Prim2SF_of_int_pos (Z.of_nat (cols T) * Z.of_nat (rows T)))
      as (m & e & Hm); [unfold mat_small in Hsmall; lia|].
    by eapply zero_div_positive.
  - cbn [resize_nearest rows cols at_]. intros iy ix Hy Hx.
    rewrite Hrows, Hcols, !Nat.div_mul, Hat by lia. f_equal; lia.
Qed.

(** Scores are never negative. *)
Lemma avg_err_not_negative roi sample e :
  mat_small sample -> avg_err_of roi sample = Some e ->
  SF_not_negative (Prim2SF e).
Proof.
  unfold avg_err_of, mat_small. intros Hsmall.
  destruct (ratio_rejected roi sample); [done|]. intros [= <-].
  rewrite div_spec. apply SFdiv_not_negative.
  - apply count_errors_not_negative.
  - cbn [resize_nearest rows cols]. apply Prim2SF_of_int_nonneg. lia.
Qed.

Section Classify.

Variables (src : Mat) (box : Rect) (number_samples : list Mat).
Hypothesis small : Forall mat_small number_samples.

Lemma small_lookup i : mat_small (number_samples !!! i).
Proof.
  rewrite list_lookup_total_alt.
  destruct (number_samples !! i) as [T|] eqn:Hi; [|by vm_compute].
  by eapply (proj1 (Forall_forall _ _) small), list_elem_of_lookup_2.
Qed.

(** As long as no scanned template scores 0, the running minimum stays
    positive. *)
Lemma roi_loop_positive (l : list nat) (s : float * Z) :
  (0 <? fst s)%float = true ->
  (forall i, i ∈ l ->
     avg_err_of (sub_mat src box) (number_samples !!! i) <> Some 0%float) ->
  (0 <? fst (foldl (roi_step src box number_samples) s l))%float = true.
Proof.
  revert s. induction l as [|i l IH]; intros s Hs Hl; cbn [foldl]; [done|].
  apply IH; [|intros j Hj; apply Hl; by apply list_elem_of_further].
  unfold roi_step.
  pose proof (Hl i (list_elem_of_here _ _)) as Hi.
  destruct (avg_err_of _ _) as [e|] eqn:He; [|done].
  destruct (e <? fst s)%float eqn:Hlt; [|done]. cbn [fst].
  eapply zero_ltb_not_negative; [|congruence|exact Hlt].
  eapply avg_err_not_negative; [apply small_lookup | exact He].
Qed.

(** Once the running minimum is 0 it is never replaced. *)
Lemma roi_loop_zero (l : list nat) (k : Z) :
  foldl (roi_step src box number_samples) (0%float, k) l = (0%float, k).
Proof.
  apply foldl_fixed. intros i _. unfold roi_step.
  destruct (avg_err_of _ _) as [e|] eqn:He; [|done]. cbn [fst].
  rewrite ltb_zero_not_negative; [done|].
  eapply avg_err_not_negative; [apply small_lookup | exact He].
Qed.

End Classify.

(** C7 (as the code has it).  Let the ten templates be images whose pixel
    counts are [int]s, let template [d] be non-empty and the threshold be
    strictly positive.  The score of template [d] against itself is 0.  If
    moreover no template scanned before [d] scores 0 against template [d]
    (a tie is won by the template scanned first), classifying template [d]
    returns [d]. *)
Theorem classify_template_returns_itself
    (number_samples : list Mat) (d : nat) (avg_err_thres : float) :
  (d < 10)%nat ->
  mat_nonempty (number_samples !!! d) ->
  Forall mat_small number_samples ->
  (0 <? avg_err_thres)%float = true ->
  (forall i, (i < d)%nat ->
     avg_err_of (sub_mat (number_samples !!! d) (whole (number_samples !!! d)))
       (number_samples !!! i) <> Some 0%float) ->
  detect_number_roi (number_samples !!! d) (whole (number_samples !!! d))
    number_samples avg_err_thres = Z.of_nat d
  /\ avg_err_of (sub_mat (number_samples !!! d) (whole (number_samples !!! d)))
       (number_samples !!! d) = Some 0%float.
Proof.
  intros Hd Hne Hsmall Hthres Hdist.
  set (T := number_samples !!! d) in *.
  assert (Hself : avg_err_of (sub_mat T (whole T)) T = Some 0%float)
    by (apply avg_err_self; [done | by apply small_lookup]).
  split; [|done].
  unfold detect_number_roi.
  replace 10%nat with (d + S (9 - d))%nat by lia.
  rewrite seq_app, foldl_app. cbn [seq foldl Nat.add].
  pose proof (roi_loop_positive T (whole T) number_samples Hsmall (seq 0 d)
                (avg_err_thres, -1) Hthres) as Hpos.
  destruct (foldl _ _ (seq 0 d)) as [m k]. cbn [fst] in Hpos.
  unfold roi_step at 2. fold T. rewrite Hself. cbn [fst].
  rewrite Hpos; [|intros i Hi%elem_of_seq; apply Hdist; lia].
  by rewrite roi_loop_zero.
Qed.

Lemma toy_templates_small : Forall mat_small toy_templates.
Proof. repeat constructor. Qed.

Lemma classify_template_returns_itself_witness :
  detect_number_roi (toy_templates !!! 2%nat) (whole (toy_templates !!! 2%nat))
    toy_templates 0x1.3333333333333p-2 = 2
  /\ avg_err_of (sub_mat (toy_templates !!! 2%nat)
                   (whole (toy_templates !!! 2%nat)))
       (toy_templates !!! 2%nat) = Some 0%float.
Proof.
  apply (classify_template_returns_itself toy_templates 2
           0x1.3333333333333p-2).
  - lia.
  - split; vm_compute; lia.
  - exact toy_templates_small.
  - reflexivity.
  - intros i Hi H.
    apply (f_equal (fun o => Prim2SF (default nan o))) in H.
    destruct i as [|[|i]]; [| |lia]; vm_compute in H; discriminate H.
Defined.

(** C7 as stated fails.  In [tie_templates] the region cut from template 1,
    a white 2x2 square, resampled to the 1x1 size of template 0, is a white
    pixel and agrees with template 0: score 0.  Template 1 then scores 0 as
    well, which is not strictly smaller, and the digit returned for template
    1 is 0. *)
Lemma classify_template_tie_counterexample :
  let T := tie_templates !!! 1%nat in
  length tie_templates = 10%nat
  /\ (0 <? 0x1.3333333333333p-2)%float = true
  /\ avg_err_of (sub_mat T (whole T)) (tie_templates !!! 0%nat)
     = Some 0%float
  /\ avg_err_of (sub_mat T (whole T)) T = Some 0%float
  /\ detect_number_roi T (whole T) tie_templates 0x1.3333333333333p-2 = 0
  /\ detect_number_roi T (whole T) tie_templates 0x1.3333333333333p-2 <> 1.
Proof. by vm_compute. Qed.

(** * Fixed-location numbers *)

Lemma fixed_loop_insert_all src number_samples avg_err_thres size_restrict
    boxes m :
  foldl (fixed_step src number_samples avg_err_thres size_restrict) m boxes
  = insert_all m
      (recognized src boxes number_samples avg_err_thres size_restrict).
Proof.
  revert m. unfold recognized, insert_all.
  induction boxes as [|b boxes IH]; intros m; [done|].
  cbn [foldl]. rewrite IH. unfold fixed_step. simpl omap.
  destruct (size_accepted src b size_restrict); [|done].
  by destruct (_ =? -1).
Qed.

Lemma map_insert_keys k v m x :
  x ∈ (map_insert k v m).*1 <-> x = k \/ x ∈ m.*1.
Proof.
  induction m as [|[k' v'] m IH]; cbn [map_insert].
  - cbn [fmap list_fmap fst]. rewrite list_elem_of_singleton.
    split; [by left | intros [?|?%elem_of_nil]; done].
  - destruct (Z.ltb_spec k k').
    + rewrite fmap_cons. cbn [fst]. by rewrite elem_of_cons.
    + destruct (Z.eqb_spec k k') as [->|Hne].
      * rewrite fmap_cons. cbn [fst]. rewrite elem_of_cons. tauto.
      * rewrite !fmap_cons. cbn [fst]. rewrite !elem_of_cons, IH. tauto.
Qed.

Lemma map_insert_sorted k v m :
  StronglySorted Z.lt m.*1 -> StronglySorted Z.lt (map_insert k v m).*1.
Proof.
  induction m as [|[k' v'] m IH]; cbn [map_insert]; intros Hs.
  - repeat constructor.
  - rewrite fmap_cons in Hs. cbn [fst] in Hs.
    apply StronglySorted_inv in Hs as [Hs Hk'].
    destruct (Z.ltb_spec k k').
    + rewrite !fmap_cons. cbn [fst]. constructor.
      * by constructor.
      * constructor; [done|]. eapply Forall_impl; [exact Hk'|].
        simpl; lia.
    + destruct (Z.eqb_spec k k') as [->|Hne].
      * rewrite fmap_cons. cbn [fst]. by constructor.
      * rewrite fmap_cons. cbn [fst]. constructor; [by apply IH|].
        apply Forall_forall. intros x [->|Hx]%map_insert_keys; [lia|].
        by apply (proj1 (Forall_forall _ _) Hk').
Qed.

Lemma first_digit_at_none x m :
  Forall (Z.lt x) m.*1 -> first_digit_at x m = None.
Proof.
  induction m as [|[k v] m IH]; cbn [first_digit_at]; [done|].
  rewrite fmap_cons. cbn [fst]. intros [Hk Hm]%Forall_cons.
  destruct (Z.eqb_spec k x); [lia | auto].
Qed.

(** [insert] adds the entry unless the key is present. *)
Lemma first_digit_at_insert x k v m :
  StronglySorted Z.lt m.*1 ->
  first_digit_at x (map_insert k v m)
  = match first_digit_at x m with
    | Some w => Some w
    | None => if k =? x then Some v else None
    end.
Proof.
  induction m as [|[k' v'] m IH]; cbn [map_insert first_digit_at]; [done|].
  rewrite fmap_cons. cbn [fst]. intros [Hs Hk']%StronglySorted_inv.
  destruct (Z.ltb_spec k k').
  - cbn [first_digit_at]. destruct (Z.eqb_spec k x) as [->|Hne].
    + destruct (Z.eqb_spec k' x); [lia|].
      rewrite first_digit_at_none; [done|].
      eapply Forall_impl; [exact Hk'|]. simpl; lia.
    + destruct (Z.eqb_spec k' x); [done|]. by destruct (first_digit_at x m).
  - destruct (Z.eqb_spec k k') as [->|Hne]; cbn [first_digit_at].
    + destruct (Z.eqb_spec k' x) as [->|?]; [done|].
      by destruct (first_digit_at x m).
    + destruct (Z.eqb_spec k' x) as [->|?]; [done|]. by apply IH.
Qed.

Lemma map_insert_fresh k v m :
  k ∉ m.*1 -> map_insert k v m ≡ₚ (k, v) :: m.
Proof.
  induction m as [|[k' v'] m IH]; cbn [map_insert]; intros Hk; [done|].
  rewrite fmap_cons in Hk. cbn [fst] in Hk.
  apply not_elem_of_cons in Hk as [Hne Hk].
  destruct (Z.ltb_spec k k'); [done|].
  destruct (Z.eqb_spec k k'); [done|].
  rewrite IH by done. apply Permutation_swap.
Qed.

Lemma insert_all_sorted m l :
  StronglySorted Z.lt m.*1 -> StronglySorted Z.lt (insert_all m l).*1.
Proof.
  revert m. unfold insert_all.
  induction l as [|[k v] l IH]; intros m Hs; cbn [foldl]; [done|].
  by apply IH, map_insert_sorted.
Qed.

Lemma first_digit_at_insert_all x m l :
  StronglySorted Z.lt m.*1 ->
  first_digit_at x (insert_all m l)
  = match first_digit_at x m with
    | Some w => Some w
    | None => first_digit_at x l
    end.
Proof.
  revert m. unfold insert_all.
  induction l as [|[k v] l IH]; intros m Hs; cbn [foldl first_digit_at].
  - by destruct (first_digit_at x m).
  - rewrite IH by by apply map_insert_sorted.
    cbn [fst snd]. rewrite first_digit_at_insert by done.
    destruct (first_digit_at x m); [done|]. by destruct (k =? x).
Qed.

Lemma insert_all_perm m l :
  NoDup (m.*1 ++ l.*1) -> insert_all m l ≡ₚ m ++ l.
Proof.
  revert m. unfold insert_all.
  induction l as [|[k v] l IH]; intros m Hnd; cbn [foldl].
  - by rewrite app_nil_r.
  - rewrite fmap_cons in Hnd. cbn [fst snd] in *.
    apply NoDup_app in Hnd as (Hm & Hdisj & [Hk Hl]%NoDup_cons).
    assert (Hfresh : k ∉ m.*1).
    { intros Hin. apply (Hdisj k Hin). apply list_elem_of_here. }
    rewrite IH.
    + rewrite map_insert_fresh by done.
      by rewrite <- Permutation_middle.
    + apply NoDup_app. split; [|split; [|done]].
      * rewrite (fmap_Permutation fst _ _ (map_insert_fresh k v m Hfresh)).
        rewrite fmap_cons. cbn [fst]. by constructor.
      * intros x [->|Hx]%map_insert_keys Hxl; [done|].
        apply (Hdisj x Hx). by apply list_elem_of_further.
Qed.

(** ** Arithmetic in [int] *)

Lemma wrap_int_range z : - 2 ^ 31 <= wrap_int z < 2 ^ 31.
Proof.
  unfold wrap_int.
  pose proof (Z.mod_pos_bound (z + 2 ^ 31) (2 ^ 32) eq_refl). lia.
Qed.

Lemma wrap_int_small z : - 2 ^ 31 <= z < 2 ^ 31 -> wrap_int z = z.
Proof. intros Hz. unfold wrap_int. rewrite Z.mod_small; lia. Qed.

Lemma wrap_int_mod z : wrap_int z mod 2 ^ 32 = z mod 2 ^ 32.
Proof.
  unfold wrap_int. rewrite Zminus_mod_idemp_l. f_equal. lia.
Qed.

Lemma wrap_int_congr a b : a mod 2 ^ 32 = b mod 2 ^ 32 -> wrap_int a = wrap_int b.
Proof.
  intros Hab. unfold wrap_int. f_equal.
  rewrite <- (Zplus_mod_idemp_l a), <- (Zplus_mod_idemp_l b). by rewrite Hab.
Qed.

(** One round of the loop of lines 211-214 on a wrapped value. *)
Lemma wrap_int_step a d :
  wrap_int (wrap_int (wrap_int a * 10) + d) = wrap_int (a * 10 + d).
Proof.
  apply wrap_int_congr.
  rewrite <- Zplus_mod_idemp_l, wrap_int_mod, <- Zmult_mod_idemp_l,
    wrap_int_mod, Zmult_mod_idemp_l, Zplus_mod_idemp_l.
  done.
Qed.

Lemma decimal_value_snoc l d :
  decimal_value (l ++ [d]) = decimal_value l * 10 + d.
Proof.
  induction l as [|x l IH]; cbn [app decimal_value length]; [simpl; lia|].
  rewrite IH, length_app, Nat2Z.inj_add, Z.pow_add_r by lia.
  simpl length. change (10 ^ Z.of_nat 1) with 10. lia.
Qed.

Lemma decimal_value_bounds l :
  Forall (fun d => 0 <= d <= 9) l ->
  0 <= decimal_value l < 10 ^ Z.of_nat (length l).
Proof.
  induction l as [|d l IH] using rev_ind; [done|].
  intros [Hl [Hd _]%Forall_cons]%Forall_app. specialize (IH Hl).
  rewrite decimal_value_snoc, length_app, Nat2Z.inj_add, Z.pow_add_r by lia.
  simpl length. change (10 ^ Z.of_nat 1) with 10. lia.
Qed.

(** The loop computes the number written by the digits, reduced to [int]. *)
Lemma compose_cooldown_wrap m :
  compose_cooldown m = wrap_int (decimal_value m.*2).
Proof.
  unfold compose_cooldown.
  induction m as [|[k d] m IH] using rev_ind; [done|].
  rewrite foldl_snoc, IH, fmap_app.
  change ([(k, d)].*2) with [d]. rewrite decimal_value_snoc. cbn [snd].
  apply wrap_int_step.
Qed.

(** Up to nine decimal digits fit an [int]. *)
Lemma compose_cooldown_exact m :
  Forall (fun kv : Z * Z => 0 <= kv.2 <= 9) m -> (length m <= 9)%nat ->
  compose_cooldown m = decimal_value m.*2.
Proof.
  intros Hd Hlen. rewrite compose_cooldown_wrap. apply wrap_int_small.
  assert (Hd' : Forall (fun d => 0 <= d <= 9) m.*2)
    by (by apply Forall_fmap).
  pose proof (decimal_value_bounds _ Hd') as [H0 Hlt].
  rewrite length_fmap in Hlt.
  assert (10 ^ Z.of_nat (length m) <= 10 ^ 9)
    by (apply Z.pow_le_mono_r; lia).
  lia.
Qed.

(** ** The digits in the map *)

Lemma roi_loop_range src box number_samples (l : list nat) (s : float * Z) :
  Forall (fun i => (i < 10)%nat) l ->
  s.2 = -1 \/ 0 <= s.2 <= 9 ->
  (foldl (roi_step src box number_samples) s l).2 = -1
  \/ 0 <= (foldl (roi_step src box number_samples) s l).2 <= 9.
Proof.
  revert s. induction l as [|i l IH]; intros s Hl Hs; [done|].
  apply Forall_cons in Hl as [Hi Hl]. cbn [foldl]. apply IH; [done|].
  unfold roi_step. destruct (avg_err_of _ _); [|done].
  destruct (_ <? _)%float; [|done]. cbn [snd]. right. lia.
Qed.

Lemma detect_number_roi_range src box number_samples avg_err_thres :
  detect_number_roi src box number_samples avg_err_thres = -1
  \/ 0 <= detect_number_roi src box number_samples avg_err_thres <= 9.
Proof.
  unfold detect_number_roi. apply roi_loop_range; [|by left].
  apply Forall_forall. intros i Hi%elem_of_seq. lia.
Qed.

Lemma map_insert_Forall (P : Z * Z -> Prop) k v m :
  P (k, v) -> Forall P m -> Forall P (map_insert k v m).
Proof.
  intros Hkv. induction m as [|[k' v'] m IH]; cbn [map_insert]; intros Hm.
  - by constructor.
  - apply Forall_cons in Hm as [Hk' Hm].
    destruct (k <? k'); [by repeat constructor|].
    destruct (k =? k'); [by constructor|]. constructor; auto.
Qed.

Lemma map_insert_length k v m :
  (length (map_insert k v m) <= S (length m))%nat.
Proof.
  induction m as [|[k' v'] m IH]; cbn [map_insert]; [done|].
  destruct (k <? k'); [simpl; lia|].
  destruct (k =? k'); simpl; lia.
Qed.

Lemma fixed_loop_digits src number_samples avg_err_thres size_restrict
    boxes m :
  Forall (fun kv : Z * Z => 0 <= kv.2 <= 9) m ->
  let m' := foldl (fixed_step src number_samples avg_err_thres size_restrict)
              m boxes in
  Forall (fun kv : Z * Z => 0 <= kv.2 <= 9) m'
  /\ (length m' <= length m + length boxes)%nat.
Proof.
  revert m. induction boxes as [|b boxes IH]; intros m Hm; cbn [foldl length].
  - split; [done | lia].
  - assert (Hstep : Forall (fun kv : Z * Z => 0 <= kv.2 <= 9)
                      (fixed_step src number_samples avg_err_thres
                         size_restrict m b)
                    /\ (length (fixed_step src number_samples avg_err_thres
                                  size_restrict m b) <= S (length m))%nat).
    { unfold fixed_step. destruct (size_accepted _ _ _); [|split; [done|lia]].
      destruct (Z.eqb_spec (detect_number_roi src b number_samples
                              avg_err_thres) (-1)); [split; [done|lia]|].
      split; [|apply map_insert_length].
      apply map_insert_Forall; [|done]. cbn [snd].
      destruct (detect_number_roi_range src b number_samples avg_err_thres);
        done || lia. }
    destruct Hstep as [Hd Hl]. destruct (IH _ Hd) as [? ?].
    split; [done | lia].
Qed.

(** ** The composed number *)

(** C9 (as the code has it).  [detect_number_fixed] keeps, for every
    x-coordinate at which a digit was recognised, the digit recognised first
    there (in contour order); when the x-coordinates of the recognised
    digits are pairwise different, it keeps all of them.  The kept digits
    lie between 0 and 9 and are read in ascending order of x-coordinate, the
    digit with the smallest x-coordinate being the most significant: the
    result is the number they write, reduced to a 32-bit [int], and it is
    that number itself when at most nine digits are kept.  The result is 0
    when no digit was recognised, and also when a single digit 0 was. *)
Theorem detect_number_fixed_composes
    (src : Mat) (boxes : list Rect) (number_samples : list Mat)
    (avg_err_thres : float) (size_restrict : Vec4d) :
  let found :=
    recognized src boxes number_samples avg_err_thres size_restrict in
  let m :=
    coord_num_map_of src boxes number_samples avg_err_thres size_restrict in
  let result :=
    detect_number_fixed src boxes number_samples avg_err_thres size_restrict in
  StronglySorted Z.lt m.*1
  /\ (forall x, first_digit_at x m = first_digit_at x found)
  /\ (NoDup found.*1 -> m ≡ₚ found)
  /\ Forall (fun kv : Z * Z => 0 <= kv.2 <= 9) m
  /\ result = wrap_int (decimal_value m.*2)
  /\ ((length m <= 9)%nat -> result = decimal_value m.*2)
  /\ (forall x d rest, m = (x, d) :: rest -> (length rest <= 8)%nat ->
        result = d * 10 ^ Z.of_nat (length rest) + decimal_value rest.*2)
  /\ (found = [] -> result = 0)
  /\ (forall x, found = [(x, 0)] -> result = 0).
Proof.
  cbv zeta.
  destruct (fixed_loop_digits src number_samples avg_err_thres size_restrict
              boxes [] (Forall_nil_2 _)) as [Hd _].
  cbv zeta in Hd. revert Hd.
  unfold detect_number_fixed, coord_num_map_of.
  rewrite fixed_loop_insert_all.
  set (found := recognized _ _ _ _ _). intros Hd.
  assert (Hnil : StronglySorted Z.lt (@nil (Z * Z)).*1) by constructor.
  split; [by apply insert_all_sorted|].
  split; [intros x; by rewrite first_digit_at_insert_all|].
  split; [intros Hnd; by rewrite insert_all_perm|].
  split; [done|].
  split; [apply compose_cooldown_wrap|].
  split; [intros Hlen; by apply compose_cooldown_exact|].
  split.
  - intros x d rest Hm Hlen. rewrite compose_cooldown_exact; [|done|].
    + rewrite Hm. cbn [fmap list_fmap decimal_value snd].
      by rewrite length_fmap.
    + rewrite Hm. cbn [length]. lia.
  - split; [by intros ->|]. by intros x ->.
Qed.

(** The white pixels of [stacked_icon] are the two glyphs that
    [stacked_boxes] bounds, those of [ten_sixes_icon] the ten glyphs that
    [ten_sixes_boxes] bounds. *)
Lemma icons_white_pixels :
  white_pixels stacked_icon = [(1, 2); (2, 1); (4, 1); (5, 2)]%nat
  /\ white_pixels ten_sixes_icon
     = (concat ((fun k => [(1, 3 * k + 1); (1, 3 * k + 2)]) <$> seq 0 10)
        ++ ((fun k => (2, 3 * k + 1)) <$> seq 0 10))%nat.
Proof. by vm_compute. Qed.

(** C9 as stated fails on "all recognized digits": in [stacked_icon] the
    digits 5 and 8 are recognised in the two boxes, which have the same
    x-coordinate 1.  The second [insert] finds the key present, so only the
    digit of the contour listed first is kept: the result is 5 when the
    upper contour comes first and 8 when the lower one does, never 58 or
    85. *)
Lemma detect_number_fixed_same_x_counterexample :
  let size_restrict : Vec4d := (2, 2, 2, 2)%float in
  let thres := 0x1.3333333333333p-2%float in
  recognized stacked_icon stacked_boxes toy_templates thres size_restrict
    = [(1, 5); (1, 8)]
  /\ coord_num_map_of stacked_icon stacked_boxes toy_templates thres
       size_restrict = [(1, 5)]
  /\ detect_number_fixed stacked_icon stacked_boxes toy_templates thres
       size_restrict = 5
  /\ recognized stacked_icon stacked_boxes_up toy_templates thres
       size_restrict = [(1, 8); (1, 5)]
  /\ coord_num_map_of stacked_icon stacked_boxes_up toy_templates thres
       size_restrict = [(1, 8)]
  /\ detect_number_fixed stacked_icon stacked_boxes_up toy_templates thres
       size_restrict = 8.
Proof. by vm_compute. Qed.

(** With ten digits the number no longer fits the [int] that
    [detect_number_fixed] computes in: on [ten_sixes_icon] ten digits 6 are
    recognised at ten different x-coordinates, and the result is
    [6666666666 - 2 * 2^32], a negative number. *)
Lemma detect_number_fixed_ten_digits :
  let size_restrict : Vec4d := (2, 2, 2, 2)%float in
  let thres := 0x1.3333333333333p-2%float in
  recognized ten_sixes_icon ten_sixes_boxes toy_templates thres size_restrict
    = (fun k => (3 * Z.of_nat k + 1, 6)) <$> seq 0 10
  /\ detect_number_fixed ten_sixes_icon ten_sixes_boxes toy_templates thres
       size_restrict = -1923267926
  /\ -1923267926 = 6666666666 - 2 * 2 ^ 32.
Proof. by vm_compute. Qed.

(** * Further properties

    ** The order of binary64 numbers *)

Ltac SFcompare_cases :=
  repeat match goal with
         | H : context [Z.compare ?a ?b] |- _ =>
             destruct (Z.compare_spec a b); try subst
         | H : context [Pos.compare_cont Eq ?a ?b] |- _ =>
             change (Pos.compare_cont Eq a b) with (Pos.compare a b) in H;
             destruct (Pos.compare_spec a b); try subst
         | |- context [Z.compare ?a ?b] =>
             destruct (Z.compare_spec a b); try subst
         | |- context [Pos.compare_cont Eq ?a ?b] =>
             change (Pos.compare_cont Eq a b) with (Pos.compare a b);
             destruct (Pos.compare_spec a b); try subst
         end.

Lemma SFltb_trans x y z :
  SFltb x y = true -> SFltb y z = true -> SFltb x z = true.
Proof.
  unfold SFltb, SFcompare.
  destruct x as [[]|[]| |[] mx ex], y as [[]|[]| |[] my ey],
           z as [[]|[]| |[] mz ez]; try done;
    intros Hxy Hyz; SFcompare_cases; simpl in *; try done; lia.
Qed.

Lemma SFleb_ltb_trans x y z :
  SFleb x y = true -> SFltb y z = true -> SFltb x z = true.
Proof.
  unfold SFleb, SFltb, SFcompare.
  destruct x as [[]|[]| |[] mx ex], y as [[]|[]| |[] my ey],
           z as [[]|[]| |[] mz ez]; try done;
    intros Hxy Hyz; SFcompare_cases; simpl in *; try done; lia.
Qed.

Lemma SFltb_irrefl x : SFltb x x = false.
Proof.
  unfold SFltb, SFcompare.
  destruct x as [[]|[]| |[] mx ex]; try done;
    rewrite Z.compare_refl, Pos.compare_cont_refl; done.
Qed.

Lemma ltb_trans (x y z : float) :
  (x <? y)%float = true -> (y <? z)%float = true -> (x <? z)%float = true.
Proof. rewrite !ltb_spec. apply SFltb_trans. Qed.

Lemma leb_ltb_trans (x y z : float) :
  (x <=? y)%float = true -> (y <? z)%float = true -> (x <? z)%float = true.
Proof. rewrite leb_spec, !ltb_spec. apply SFleb_ltb_trans. Qed.

Lemma ltb_irrefl (x : float) : (x <? x)%float = false.
Proof. rewrite ltb_spec. apply SFltb_irrefl. Qed.

(** ** Scans for the first strict minimum *)

Lemma best_below_start bound : best_below [] bound (bound, -1).
Proof. left. split; [done|]. intros j e Hj. by destruct j. Qed.

Lemma best_below_step pre bound s sc :
  best_below pre bound s ->
  best_below (pre ++ [sc]) bound
    match sc with
    | Some e => if (e <? fst s)%float then (e, Z.of_nat (length pre)) else s
    | None => s
    end.
Proof.
  intros Hs.
  assert (Hnone : best_below (pre ++ [None]) bound s).
  { destruct Hs as [[-> Hall]|(i & Hi & Hsi & Hlt & Hmin & Htie)].
    - left. split; [done|].
      intros j e [[_ Hj]|[_ [=]]]%lookup_snoc_Some. eauto.
    - right. exists i. split; [done|].
      split; [apply lookup_snoc_Some; left; split; [|done];
              by eapply lookup_lt_Some|].
      split; [done|]. split.
      + intros j e [[_ Hj]|[_ [=]]]%lookup_snoc_Some. eauto.
      + intros j e Hji [[_ Hj]|[_ [=]]]%lookup_snoc_Some. eauto. }
  destruct sc as [e|]; [|done].
  destruct (e <? s.1)%float eqn:Hlt.
  - right. exists (length pre). cbn [fst snd].
    split; [done|]. split; [apply lookup_snoc_Some; by right|].
    assert (Hold : forall j e', pre !! j = Some (Some e') ->
                     (e' <? s.1)%float = false).
    { destruct Hs as [[-> Hall]|(i & _ & _ & _ & Hmin & _)]; eauto. }
    split.
    { destruct Hs as [[-> _]|(i & _ & _ & Hb & _ & _)]; [done|].
      by eapply ltb_trans. }
    split.
    + intros j e' [[_ Hj]|[_ [= <-]]]%lookup_snoc_Some;
        [|apply ltb_irrefl].
      destruct (e' <? e)%float eqn:He'; [|done].
      rewrite <- (Hold j e' Hj). symmetry. by eapply ltb_trans.
    + intros j e' Hjl [[_ Hj]|[-> _]]%lookup_snoc_Some; [|lia].
      destruct (e' <=? e)%float eqn:He'; [|done].
      rewrite <- (Hold j e' Hj). symmetry. by eapply leb_ltb_trans.
  - destruct Hs as [[-> Hall]|(i & Hi & Hsi & Hb & Hmin & Htie)].
    + left. split; [done|].
      intros j e' [[_ Hj]|[_ [= <-]]]%lookup_snoc_Some; eauto.
    + right. exists i. split; [done|].
      split; [apply lookup_snoc_Some; left; split; [|done];
              by eapply lookup_lt_Some|].
      split; [done|]. split.
      * intros j e' [[_ Hj]|[_ [= <-]]]%lookup_snoc_Some; eauto.
      * intros j e' Hji [[_ Hj]|[-> _]]%lookup_snoc_Some; [eauto|].
        apply lookup_lt_Some in Hsi. lia.
Qed.

Lemma running_min_best pre scores bound s :
  best_below pre bound s ->
  best_below (pre ++ scores) bound (running_min scores (length pre) s).
Proof.
  revert pre s. induction scores as [|sc scores IH]; intros pre s Hs;
    cbn [running_min]; [by rewrite app_nil_r|].
  rewrite (assoc_L (++) pre [sc] scores : pre ++ sc :: scores = _).
  replace (S (length pre)) with (length (pre ++ [sc]))
    by (rewrite length_app; simpl; lia).
  by apply IH, best_below_step.
Qed.

Lemma roi_loop_running_min src box number_samples n i s :
  foldl (roi_step src box number_samples) s (seq i n)
  = running_min
      ((fun j => avg_err_of (sub_mat src box) (number_samples !!! j))
         <$> seq i n) i s.
Proof.
  revert i s. induction n as [|n IH]; intros i s; [done|].
  cbn [seq foldl fmap list_fmap running_min]. rewrite IH. f_equal.
Qed.

Lemma nearest_loop_running_min pos heroes i dist_min i_min :
  nearest_loop pos heroes i dist_min i_min
  = running_min ((fun h => Some (point_dist pos (position h))) <$> heroes)
      i (dist_min, i_min).
Proof.
  revert i dist_min i_min.
  induction heroes as [|h heroes IH]; intros i dist_min i_min; [done|].
  cbn [nearest_loop fmap list_fmap running_min fst].
  destruct (_ <? _)%float; apply IH.
Qed.

(** X1.  [detect_number_roi] returns the best match: either -1, and then no
    template passes the aspect-ratio test with a score below the threshold;
    or a digit whose template scores below the threshold, such that no
    template scores strictly less and every template scanned before it
    scores strictly more (or is skipped, or has no comparable score). *)
Theorem detect_number_roi_best (src : Mat) (box : Rect)
    (number_samples : list Mat) (avg_err_thres : float) :
  let score j := avg_err_of (sub_mat src box) (number_samples !!! j) in
  let d := detect_number_roi src box number_samples avg_err_thres in
  (d = -1
   /\ forall j e, (j < 10)%nat -> score j = Some e ->
                  (e <? avg_err_thres)%float = false)
  \/ (exists (i : nat) (m : float),
        (i < 10)%nat /\ d = Z.of_nat i /\ score i = Some m
        /\ (m <? avg_err_thres)%float = true
        /\ (forall j e, (j < 10)%nat -> score j = Some e ->
                        (e <? m)%float = false)
        /\ (forall j e, (j < i)%nat -> score j = Some e ->
                        (e <=? m)%float = false)).
Proof.
  cbv zeta. unfold detect_number_roi. rewrite roi_loop_running_min.
  set (score := fun j => avg_err_of (sub_mat src box) (number_samples !!! j)).
  pose proof (running_min_best [] (score <$> seq 0 10) avg_err_thres
                _ (best_below_start avg_err_thres)) as Hbest.
  cbn [app length] in Hbest.
  assert (Hlook : forall j e, (j < 10)%nat -> score j = Some e ->
                    (score <$> seq 0 10) !! j = Some (Some e)).
  { intros j e Hj He. rewrite list_lookup_fmap, lookup_seq_lt by done.
    simpl. by rewrite He. }
  destruct Hbest as [[-> Hall]|(i & Hi & Hsi & Hlt & Hmin & Htie)].
  - left. split; [done|]. intros j e Hj He. eauto.
  - right. destruct (running_min _ _ _) as [m d]. cbn [fst snd] in *.
    exists i, m.
    assert (Hi10 : (i < 10)%nat).
    { apply lookup_lt_Some in Hsi. by rewrite length_fmap, length_seq in Hsi. }
    rewrite list_lookup_fmap, lookup_seq_lt in Hsi by done.
    injection Hsi as Hsi.
    repeat split; try done.
    + intros j e Hj He. eauto.
    + intros j e Hj He. apply (Htie j e Hj). apply Hlook; [lia | done].
Qed.

(** X2.  The nearest-neighbour scan of [assign_hero] returns -1 exactly when
    no stored entity is closer than 20 pixels; otherwise it returns the index
    of an entity closer than 20 pixels such that no entity is strictly
    closer and every entity before it in the list is strictly farther. *)
Theorem nearest_hero_best (pos : Point) (heroes : list HeroStatus) :
  let dist (h : HeroStatus) := point_dist pos (position h) in
  let i_min := nearest_hero pos heroes in
  (i_min = -1
   /\ forall j h, heroes !! j = Some h -> (dist h <? 20)%float = false)
  \/ (exists (i : nat) (h : HeroStatus),
        i_min = Z.of_nat i /\ heroes !! i = Some h
        /\ (dist h <? 20)%float = true
        /\ (forall j h', heroes !! j = Some h' ->
                         (dist h' <? dist h)%float = false)
        /\ (forall j h', (j < i)%nat -> heroes !! j = Some h' ->
                         (dist h' <=? dist h)%float = false)).
Proof.
  cbv zeta. unfold nearest_hero. rewrite nearest_loop_running_min.
  set (score := fun h => Some (point_dist pos (position h))).
  pose proof (running_min_best [] (score <$> heroes) 20%float
                _ (best_below_start 20%float)) as Hbest.
  cbn [app length] in Hbest.
  assert (Hlook : forall j h, heroes !! j = Some h ->
                    (score <$> heroes) !! j
                    = Some (Some (point_dist pos (position h)))).
  { intros j h Hj. by rewrite list_lookup_fmap, Hj. }
  destruct Hbest as [[-> Hall]|(i & Hi & Hsi & Hlt & Hmin & Htie)].
  - left. split; [done|]. intros j h Hj. eauto.
  - right. destruct (running_min _ _ _) as [m d]. cbn [fst snd] in *.
    rewrite list_lookup_fmap in Hsi.
    destruct (heroes !! i) as [h|] eqn:Hh; [|done].
    injection Hsi as <-. exists i, h.
    repeat split; try done.
    + intros j h' Hj. eauto.
    + intros j h' Hji Hj. eauto.
Qed.

(** ** Invariants of the tracker along runs *)

(** A property of the analyzer that creation, merging, erasure and the
    setting of the initialisation flag preserve holds along every run. *)
Lemma run_invariant (P : GameVideoAnalyzer -> Prop) :
  (forall lvl pos ts out st, P st -> P (push_new_hero lvl pos ts out st).2) ->
  (forall i lvl pos ts bump out st,
      (i < length (heroes_list_ st))%nat -> P st ->
      P (merge_hero i lvl pos ts bump out st).2) ->
  (forall i st, P st -> P (erase_hero i st)) ->
  (forall st, P st ->
      P (mkAnalyzer (dist_list_ st) (hero_id_ st) true (last_updated_ st)
           (appearances_ st) (heroes_list_ st))) ->
  forall ops st, P st -> P (run ops st).
Proof.
  intros Hpush Hmerge Herase Hflag.
  assert (Hassign : forall lvl pos out ts st,
             P st -> P (assign_hero lvl pos out ts st).2).
  { intros lvl pos out ts st Hst.
    destruct (assign_hero_outcome lvl pos out ts st); auto. }
  assert (Hstep : forall rnv ts s i,
             P s.2 -> P (compose_step rnv ts s i).2).
  { intros rnv ts [[flags out] st] i Hst. unfold compose_step.
    destruct (negb _); [done|].
    destruct (rnv !! i) as [[p1 num1]|]; [|done].
    destruct (find_partner _ _ _ _) as [[[j hero_level] anchor]|].
    - specialize (Hassign hero_level anchor out ts st Hst).
      by destruct (assign_hero hero_level anchor out ts st).
    - destruct (num1 >? 0); [|done].
      specialize (Hassign num1 p1 out ts st Hst).
      by destruct (assign_hero num1 p1 out ts st). }
  assert (Hloop : forall rnv ts js s,
             P s.2 -> P (foldl (compose_step rnv ts) s js).2).
  { intros rnv ts js. induction js as [|j js IH]; intros s Hs; [done|].
    cbn [foldl]. by apply IH, Hstep. }
  assert (Htrack : forall rnv ts st, P st -> P (track_hero rnv ts st).2).
  { intros rnv ts st Hst. unfold track_hero.
    specialize (Hloop rnv ts (seq 0 (length rnv))
                  (replicate (length rnv) true, [], st) Hst).
    destruct (foldl _ _ _) as [[flags out] st']. by apply Hflag. }
  assert (Hdel : forall fuel ts it na i st,
             P st -> P (delete_loop fuel ts it na i st)).
  { intros fuel ts it na. induction fuel as [|fuel IH]; intros i st Hst;
      cbn [delete_loop]; [done|].
    destruct (_ <? _)%nat; [|done]. apply IH.
    destruct (is_inactive _ _ _ _ _); auto. }
  intros ops. induction ops as [|op ops IH]; intros st Hst; [done|].
  cbn [run foldl]. fold (run ops (run_op op st)). apply IH.
  destruct op; cbn [run_op]; auto. by apply Hdel.
Qed.

(** X3.  In every state that a sequence of tracker operations reaches from a
    fresh analyzer, the three index-parallel vectors have the same length,
    and the index returned by the nearest-neighbour scan, when it is not -1,
    is a valid index of all three: [assign_hero] never indexes out of
    range. *)
Theorem vectors_stay_aligned (ops : list tracker_op) (pos : Point) :
  let st := run ops new_analyzer in
  let i_min := nearest_hero pos (heroes_list_ st) in
  length (last_updated_ st) = length (heroes_list_ st)
  /\ length (appearances_ st) = length (heroes_list_ st)
  /\ (i_min = -1
      \/ (0 <= i_min < Z.of_nat (length (heroes_list_ st))
          /\ is_Some (last_updated_ st !! Z.to_nat i_min)
          /\ is_Some (appearances_ st !! Z.to_nat i_min))).
Proof.
  cbv zeta. destruct (parallel_run ops new_analyzer parallel_new) as [Hl Ha].
  split; [done|]. split; [done|].
  destruct (nearest_hero_range pos (heroes_list_ (run ops new_analyzer)))
    as [?|Hr]; [by left | right].
  split; [done|]. split; apply lookup_lt_is_Some; lia.
Qed.

(** X4.  In every reachable state each stored entity has been seen at least
    once: all appearance counts are at least 1. *)
Theorem appearances_at_least_one (ops : list tracker_op) :
  Forall (fun n => 1 <= n) (appearances_ (run ops new_analyzer)).
Proof.
  apply (run_invariant (fun st => Forall (fun n => 1 <= n) (appearances_ st)));
    [| | | |by constructor]; cbn [merge_hero push_new_hero erase_hero snd
                                   appearances_].
  - intros _ _ _ _ st Hst. apply Forall_app. split; [done|].
    by repeat constructor.
  - intros i _ _ _ _ _ st _ Hst. apply Forall_insert; [done|].
    rewrite list_lookup_total_alt.
    destruct (appearances_ st !! i) as [n|] eqn:Hn; simpl; [|lia].
    apply (proj1 (Forall_lookup _ _) Hst) in Hn. lia.
  - intros i st Hst. eapply Forall_sublist; [apply sublist_delete | done].
  - done.
Qed.

(** ** What one reading changes *)

(** X5.  One call of [assign_hero] changes at most one stored entity, the
    one the nearest-neighbour scan selects: every other stored entity keeps
    its record, its timestamp and its appearance count.  No stored entity
    ever changes its identity, and no appearance count decreases or grows by
    more than one. *)
Theorem assign_hero_touches_only_nearest
    (lvl : Z) (pos : Point) (out : list HeroStatus) (ts : Z)
    (st : GameVideoAnalyzer) (j : nat) (h : HeroStatus) (t n : Z) :
  heroes_list_ st !! j = Some h ->
  last_updated_ st !! j = Some t ->
  appearances_ st !! j = Some n ->
  let st' := (assign_hero lvl pos out ts st).2 in
  (exists h' t' n',
      heroes_list_ st' !! j = Some h' /\ last_updated_ st' !! j = Some t'
      /\ appearances_ st' !! j = Some n'
      /\ hero_id h' = hero_id h /\ n <= n' <= n + 1)
  /\ (Z.of_nat j <> nearest_hero pos (heroes_list_ st) ->
      heroes_list_ st' !! j = Some h /\ last_updated_ st' !! j = Some t
      /\ appearances_ st' !! j = Some n).
Proof.
  intros Hh Ht Hn.
  assert (Hpush : let st' := (push_new_hero lvl pos ts out st).2 in
            heroes_list_ st' !! j = Some h /\ last_updated_ st' !! j = Some t
            /\ appearances_ st' !! j = Some n).
  { cbn [push_new_hero snd heroes_list_ last_updated_ appearances_].
    rewrite !lookup_app_l by by eapply lookup_lt_Some. done. }
  assert (Hkeep : forall st',
            heroes_list_ st' !! j = Some h /\ last_updated_ st' !! j = Some t
            /\ appearances_ st' !! j = Some n ->
            (exists h' t' n',
                heroes_list_ st' !! j = Some h'
                /\ last_updated_ st' !! j = Some t'
                /\ appearances_ st' !! j = Some n'
                /\ hero_id h' = hero_id h /\ n <= n' <= n + 1)).
  { intros st' (? & ? & ?). exists h, t, n. repeat split; try done; lia. }
  assert (Hmerge : forall bump,
            nearest_hero pos (heroes_list_ st) <> -1 ->
            let i := Z.to_nat (nearest_hero pos (heroes_list_ st)) in
            let st' := (merge_hero i lvl pos ts bump out st).2 in
            (exists h' t' n',
                heroes_list_ st' !! j = Some h'
                /\ last_updated_ st' !! j = Some t'
                /\ appearances_ st' !! j = Some n'
                /\ hero_id h' = hero_id h /\ n <= n' <= n + 1)
            /\ (Z.of_nat j <> nearest_hero pos (heroes_list_ st) ->
                heroes_list_ st' !! j = Some h
                /\ last_updated_ st' !! j = Some t
                /\ appearances_ st' !! j = Some n)).
  { intros bump Hne.
    destruct (nearest_hero_range pos (heroes_list_ st)) as [?|Hr]; [done|].
    cbv zeta. cbn [merge_hero snd heroes_list_ last_updated_ appearances_].
    destruct (decide (j = Z.to_nat (nearest_hero pos (heroes_list_ st))))
      as [Hj|Hj].
    - split; [|lia]. rewrite <- Hj.
      rewrite !list_lookup_insert_eq by by eapply lookup_lt_Some.
      rewrite (list_lookup_total_correct _ _ _ Hh).
      rewrite (list_lookup_total_correct _ _ _ Hn).
      eexists _, _, _. repeat split; try done; simpl; lia.
    - rewrite !list_lookup_insert_ne by done.
      split; [|done]. exists h, t, n. repeat split; try done; lia. }
  cbv zeta. unfold assign_hero.
  destruct (negb _); [split; [by apply Hkeep | done]|].
  destruct (nearest_hero pos (heroes_list_ st) =? -1) eqn:Hm1;
    [split; [by apply Hkeep | done]|].
  apply Z.eqb_neq in Hm1. cbn [negb orb andb].
  repeat match goal with
         | |- context [if ?b then _ else _] => destruct b
         end;
    try (split; [by apply Hkeep | done]); by apply Hmerge.
Qed.

Lemma assign_hero_touches_only_nearest_witness :
  let st := (track_hero [(mkPoint 100 100, 5); (mkPoint 300 100, 7)] 0
               new_analyzer).2 in
  let st' := (assign_hero 5 (mkPoint 101 100) [] 40 st).2 in
  nearest_hero (mkPoint 101 100) (heroes_list_ st) = 0
  /\ heroes_list_ st' !! 1%nat = Some (mkHero 1 (mkPoint 300 100) 7)
  /\ last_updated_ st' !! 1%nat = Some 0
  /\ appearances_ st' !! 1%nat = Some 1.
Proof.
  split; [by vm_compute|].
  refine (proj2 (assign_hero_touches_only_nearest 5 (mkPoint 101 100) [] 40
                   (track_hero [(mkPoint 100 100, 5); (mkPoint 300 100, 7)] 0
                      new_analyzer).2 1 (mkHero 1 (mkPoint 300 100) 7) 0 1
                   _ _ _) _); by vm_compute.
Defined.

(** ** Eviction, entity by entity *)

Lemma zip_delete {A B} (l : list A) (k : list B) i :
  zip (delete i l) (delete i k) = delete i (zip l k).
Proof.
  revert k i. induction l as [|x l IH]; intros k i.
  - by destruct i.
  - destruct k as [|y k].
    + replace (delete i (@nil B)) with (@nil B) by by destruct i.
      replace (zip (x :: l) []) with (@nil (A * B)) by done.
      replace (delete i (@nil (A * B))) with (@nil (A * B)) by by destruct i.
      by destruct (delete i (x :: l)).
    + destruct i as [|i]; [done|]. simpl. f_equal. apply IH.
Qed.

Lemma entities_erase i st :
  entities (erase_hero i st) = delete i (entities st).
Proof.
  unfold entities.
  cbn [erase_hero heroes_list_ last_updated_ appearances_].
  by rewrite !zip_delete.
Qed.

Lemma entities_length st :
  parallel st -> length (entities st) = length (heroes_list_ st).
Proof. intros [Hl Ha]. unfold entities. rewrite !length_zip. lia. Qed.

Lemma parallel_erase i st : parallel st -> parallel (erase_hero i st).
Proof.
  intros [Hl Ha].
  split; cbn [erase_hero heroes_list_ last_updated_ appearances_];
    rewrite !delete_take_drop, !length_app, !length_take, !length_drop; lia.
Qed.

Lemma is_inactive_entity ts inactive_time num_app i st e :
  entities st !! i = Some e ->
  is_inactive ts inactive_time num_app i st
  = entity_inactive ts inactive_time num_app e.
Proof.
  destruct e as [[h t] n]. unfold entities.
  intros [[Hh Ht]%lookup_zip_Some Hn]%lookup_zip_Some.
  unfold is_inactive, entity_inactive. cbn [fst snd].
  by rewrite (list_lookup_total_correct _ _ _ Ht),
             (list_lookup_total_correct _ _ _ Hn).
Qed.

Lemma delete_loop_prune fuel ts inactive_time num_app i st :
  parallel st -> (length (heroes_list_ st) - i <= fuel)%nat ->
  entities (delete_loop fuel ts inactive_time num_app i st)
  = take i (entities st)
    ++ prune ts inactive_time num_app (drop i (entities st)).
Proof.
  revert i st. induction fuel as [|fuel IH]; intros i st Hp Hfuel;
    cbn [delete_loop].
  - rewrite drop_ge, take_ge, app_nil_r; rewrite ?entities_length; done || lia.
  - destruct (Nat.ltb_spec i (length (heroes_list_ st))) as [Hi|Hi];
      [|rewrite drop_ge, take_ge, app_nil_r;
        rewrite ?entities_length; done || lia].
    destruct (lookup_lt_is_Some_2 (entities st) i) as [e He];
      [by rewrite entities_length|].
    rewrite (is_inactive_entity _ _ _ _ _ _ He).
    rewrite (drop_S _ _ _ He). cbn [prune].
    destruct (entity_inactive ts inactive_time num_app e).
    + pose proof (erase_hero_length i st) as Hlen.
      rewrite IH; [|by apply parallel_erase|lia].
      rewrite entities_erase, delete_take_drop.
      assert (Hti : length (take i (entities st)) = i)
        by (rewrite length_take, entities_length by done; lia).
      rewrite take_app_ge, drop_app_ge by lia. rewrite Hti.
      replace (S i - i)%nat with 1%nat by lia.
      rewrite <- app_assoc. f_equal.
      by destruct (drop (S i) (entities st)) as [|e' rest].
    + rewrite IH by (done || lia).
      rewrite (take_S_r _ _ _ He), <- app_assoc. done.
Qed.

Lemma delete_prune ts inactive_time num_app st :
  parallel st ->
  entities (delete_inactive_heroes ts inactive_time num_app st)
  = prune ts inactive_time num_app (entities st).
Proof.
  intros Hp. unfold delete_inactive_heroes.
  rewrite delete_loop_prune; [done|done|lia].
Qed.

(** X6.  One eviction pass, entity by entity, in every reachable state: the
    entities left are those that [prune] keeps.  An entity is kept if it is
    not both stale and below the appearance floor; after an erased entity
    the next one is kept without being examined.  The records, timestamps
    and counts of the survivors are unchanged and stay together. *)
Theorem delete_inactive_heroes_prunes
    (ops : list tracker_op) (ts inactive_time num_app : Z) :
  let st := run ops new_analyzer in
  entities (delete_inactive_heroes ts inactive_time num_app st)
  = prune ts inactive_time num_app (entities st).
Proof.
  apply delete_prune, parallel_run, parallel_new.
Qed.

Lemma prune_sublist ts inactive_time num_app l :
  prune ts inactive_time num_app l `sublist_of` l.
Proof.
  assert (H : forall n l, (length l <= n)%nat ->
                prune ts inactive_time num_app l `sublist_of` l).
  { clear l. induction n as [|n IH]; intros [|e l] Hl; simpl in *;
      try done; try lia.
    destruct (entity_inactive _ _ _ e).
    - destruct l as [|e' l]; [by apply sublist_nil_l|].
      apply sublist_cons, sublist_skip. apply IH. simpl in Hl. lia.
    - apply sublist_skip, IH. lia. }
  by apply (H (length l)).
Qed.

Lemma prune_keeps_active ts inactive_time num_app l :
  active_entities ts inactive_time num_app (prune ts inactive_time num_app l)
  = active_entities ts inactive_time num_app l.
Proof.
  assert (H : forall n l, (length l <= n)%nat ->
     active_entities ts inactive_time num_app
       (prune ts inactive_time num_app l)
     = active_entities ts inactive_time num_app l).
  { clear l. unfold active_entities.
    induction n as [|n IH]; intros [|e l] Hl; simpl in *; try done; try lia.
    destruct (entity_inactive _ _ _ e) eqn:He; simpl.
    - destruct l as [|e' l]; [done|]. simpl in *.
      rewrite IH by lia. done.
    - rewrite He. simpl. f_equal. apply IH. lia. }
  by apply (H (length l)).
Qed.

Lemma active_entities_all ts inactive_time num_app l :
  active_entities ts inactive_time num_app l = l ->
  prune ts inactive_time num_app l = l.
Proof.
  unfold active_entities. induction l as [|e l IH]; [done|]. simpl.
  destruct (entity_inactive _ _ _ e) eqn:He; simpl.
  - intros Heq. pose proof (List.filter_length_le
      (fun e => negb (entity_inactive ts inactive_time num_app e)) l) as Hle.
    apply (f_equal length) in Heq. simpl in Heq. lia.
  - intros [= Heq]. by rewrite IH.
Qed.

Lemma prune_shrinks ts inactive_time num_app l :
  active_entities ts inactive_time num_app l <> l ->
  (length (prune ts inactive_time num_app l) < length l)%nat.
Proof.
  unfold active_entities. induction l as [|e l IH]; [done|]. simpl.
  destruct (entity_inactive _ _ _ e) eqn:He; simpl.
  - intros _. destruct l as [|e' l]; [simpl; lia|]. simpl.
    pose proof (sublist_length _ _
                  (prune_sublist ts inactive_time num_app l)). lia.
  - intros Hne. assert (Hl : List.filter
      (fun e => negb (entity_inactive ts inactive_time num_app e)) l <> l)
      by congruence.
    specialize (IH Hl). lia.
Qed.

Lemma prune_iter ts inactive_time num_app n l :
  (length l <= n)%nat ->
  Nat.iter n (prune ts inactive_time num_app) l
  = active_entities ts inactive_time num_app l.
Proof.
  revert l. induction n as [|n IH]; intros l Hl.
  - destruct l; [done | simpl in Hl; lia].
  - rewrite Nat.iter_succ_r.
    destruct (decide (active_entities ts inactive_time num_app l = l))
      as [Hall|Hsome].
    + pose proof (active_entities_all _ _ _ _ Hall) as Hfix.
      rewrite Hfix, Hall. clear IH Hl.
      induction n as [|n IHn]; [done|]. simpl. by rewrite IHn.
    + rewrite IH; [apply prune_keeps_active|].
      pose proof (prune_shrinks _ _ _ _ Hsome). lia.
Qed.

(** X7.  What an eviction pass never does, in every reachable state: it
    removes no entity that is not both stale and below the appearance floor,
    it keeps the order of the survivors, and it adds or alters nothing.  When
    no entity is inactive the pass changes nothing; when one is, the pass
    removes at least one entity. *)
Theorem eviction_removes_only_inactive
    (ops : list tracker_op) (ts inactive_time num_app : Z) :
  let st := run ops new_analyzer in
  let st' := delete_inactive_heroes ts inactive_time num_app st in
  entities st' `sublist_of` entities st
  /\ (forall e, e ∈ entities st ->
        entity_inactive ts inactive_time num_app e = false ->
        e ∈ entities st')
  /\ (active_entities ts inactive_time num_app (entities st) = entities st ->
      entities st' = entities st)
  /\ (active_entities ts inactive_time num_app (entities st) <> entities st ->
      (length (entities st') < length (entities st))%nat)
  /\ hero_id_ st' = hero_id_ st.
Proof.
  cbv zeta.
  rewrite (delete_prune _ _ _ _ (parallel_run ops new_analyzer parallel_new)).
  split; [apply prune_sublist|]. split; [|split; [|split]].
  - intros e He Hact. apply list_elem_of_In.
    assert (Hin : In e (active_entities ts inactive_time num_app
                          (prune ts inactive_time num_app
                             (entities (run ops new_analyzer))))).
    { rewrite prune_keeps_active. apply List.filter_In.
      split; [by apply list_elem_of_In | by rewrite Hact]. }
    by apply List.filter_In in Hin as [Hin _].
  - apply active_entities_all.
  - apply prune_shrinks.
  - unfold delete_inactive_heroes.
    by destruct (delete_loop_sub
                   (length (heroes_list_ (run ops new_analyzer)))
                   ts inactive_time num_app 0 (run ops new_analyzer))
      as (_ & -> & _).
Qed.

Lemma delete_n_prune n ts inactive_time num_app st :
  parallel st ->
  parallel (delete_inactive_heroes_n n ts inactive_time num_app st)
  /\ entities (delete_inactive_heroes_n n ts inactive_time num_app st)
     = Nat.iter n (prune ts inactive_time num_app) (entities st).
Proof.
  intros Hp. unfold delete_inactive_heroes_n.
  induction n as [|n [IHp IHe]]; [done|]. rewrite !Nat.iter_succ. split.
  - by apply delete_loop_sub.
  - by rewrite delete_prune, IHe.
Qed.

(** X8.  Repeating the eviction pass with the same arguments as many times
    as there are stored entities removes every inactive entity and nothing
    else: what one pass skips, a later pass removes. *)
Theorem repeated_eviction_removes_all_inactive
    (ops : list tracker_op) (ts inactive_time num_app : Z) (n : nat) :
  let st := run ops new_analyzer in
  (length (heroes_list_ st) <= n)%nat ->
  entities (delete_inactive_heroes_n n ts inactive_time num_app st)
  = active_entities ts inactive_time num_app (entities st).
Proof.
  cbv zeta. intros Hn.
  pose proof (parallel_run ops new_analyzer parallel_new) as Hp.
  destruct (delete_n_prune n ts inactive_time num_app _ Hp) as [_ ->].
  apply prune_iter. by rewrite entities_length.
Qed.

Lemma repeated_eviction_removes_all_inactive_witness :
  let st := run [OpTrack [(mkPoint 100 100, 5); (mkPoint 300 100, 5)] 0]
              new_analyzer in
  (length (heroes_list_ st) <= 2)%nat
  /\ entities (delete_inactive_heroes 1500 1000 5 st)
     = [(mkHero 1 (mkPoint 300 100) 5, 0, 1)]
  /\ entities (delete_inactive_heroes_n 2 1500 1000 5 st) = [].
Proof.
  split; [by vm_compute|]. split; [by vm_compute|].
  rewrite (repeated_eviction_removes_all_inactive
             [OpTrack [(mkPoint 100 100, 5); (mkPoint 300 100, 5)] 0]
             1500 1000 5 2); by vm_compute.
Defined.

(** ** What a frame reports *)

Lemma find_partner_spec p1 num1 j rest j' lvl anchor :
  find_partner p1 num1 j rest = Some (j', lvl, anchor) ->
  exists p2 num2,
    (j <= j')%nat /\ rest !! (j' - j)%nat = Some (p2, num2)
    /\ same_icon p1 p2 = true /\ pair_level p1 num1 p2 num2 <= 15
    /\ lvl = pair_level p1 num1 p2 num2 /\ anchor = pair_anchor p1 p2.
Proof.
  revert j. induction rest as [|[p2 num2] rest IH]; intros j; [done|].
  cbn [find_partner].
  destruct (same_icon p1 p2 && (pair_level p1 num1 p2 num2 <=? 15)) eqn:Hc.
  - intros [= <- <- <-]. apply andb_prop in Hc as [Hi Hl%Z.leb_le].
    exists p2, num2. rewrite Nat.sub_diag. by repeat split.
  - intros (p & n & Hj & Hl & Hrest)%IH. exists p, n.
    split; [lia|]. split; [|done].
    by replace (j' - j)%nat with (S (j' - S j)) by lia.
Qed.

Lemma compose_step_reports rect_num_vec ts flags out st i :
  Forall (report_from rect_num_vec) out ->
  let '(_, out', _) := compose_step rect_num_vec ts (flags, out, st) i in
  Forall (report_from rect_num_vec) out'
  /\ (length out' <= S (length out))%nat.
Proof.
  intros Hout. unfold compose_step.
  destruct (negb _); [split; [done | lia]|].
  destruct (rect_num_vec !! i) as [[p1 num1]|] eqn:Hi; [|split; [done | lia]].
  destruct (find_partner _ _ _ _) as [[[j lvl] anchor]|] eqn:Hf.
  - apply find_partner_spec in Hf
      as (p2 & num2 & Hj & Hl & Hicon & Hle & -> & ->).
    rewrite lookup_drop in Hl.
    destruct (assign_hero_reports (pair_level p1 num1 p2 num2)
                (pair_anchor p1 p2) out ts st) as [id Hid].
    destruct (assign_hero _ _ _ _ _) as [out' st']. cbn [fst] in Hid.
    subst out'. split; [|rewrite length_app; simpl; lia].
    apply Forall_app. split; [done|]. constructor; [|done].
    right. exists i, (S i + (j - S i))%nat, p1, num1, p2, num2.
    repeat split; try done. lia.
  - destruct (Z.gtb_spec num1 0); [|split; [done | lia]].
    destruct (assign_hero_reports num1 p1 out ts st) as [id Hid].
    destruct (assign_hero _ _ _ _ _) as [out' st']. cbn [fst] in Hid.
    subst out'. split; [|rewrite length_app; simpl; lia].
    apply Forall_app. split; [done|]. constructor; [|done].
    left. exists i, p1, num1. by repeat split.
Qed.

Lemma compose_loop_reports rect_num_vec ts js flags out st :
  Forall (report_from rect_num_vec) out ->
  let '(_, out', _) :=
    foldl (compose_step rect_num_vec ts) (flags, out, st) js in
  Forall (report_from rect_num_vec) out'
  /\ (length out' <= length out + length js)%nat.
Proof.
  revert flags out st.
  induction js as [|j js IH]; intros flags out st Hout; cbn [foldl length].
  - split; [done | lia].
  - pose proof (compose_step_reports rect_num_vec ts flags out st j Hout)
      as Hstep.
    destruct (compose_step rect_num_vec ts (flags, out, st) j)
      as [[flags' out'] st'].
    destruct Hstep as [Hout' Hlen].
    specialize (IH flags' out' st' Hout').
    destruct (foldl _ _ js) as [[flags'' out''] st''].
    destruct IH as [? ?]. split; [done | lia].
Qed.

Lemma pair_level_range p1 n1 p2 n2 :
  0 <= n1 <= 9 -> 0 <= n2 <= 9 -> 0 <= pair_level p1 n1 p2 n2.
Proof. unfold pair_level. destruct (_ >? _); lia. Qed.

(** X9.  A frame reports at most one hero per detection.  Every reported
    hero stems from the detections: either from one detection with a
    positive digit, whose position and digit it carries, or from two
    detections of one icon whose pair reads at most 15, with the pair's
    level and the position of the right-hand detection.  Hence, when the
    detected digits lie between 0 and 9, every reported level lies between
    0 and 15, and a level of 0 is only ever reported for a pair. *)
Theorem track_hero_reports_from_detections
    (rect_num_vec : list (Point * Z)) (ts : Z) (st : GameVideoAnalyzer) :
  let out := (track_hero rect_num_vec ts st).1 in
  (length out <= length rect_num_vec)%nat
  /\ Forall (report_from rect_num_vec) out
  /\ (Forall (fun d => 0 <= d.2 <= 9) rect_num_vec ->
      Forall (fun h => 0 <= level h <= 15) out).
Proof.
  cbv zeta. unfold track_hero.
  pose proof (compose_loop_reports rect_num_vec ts
                (seq 0 (length rect_num_vec))
                (replicate (length rect_num_vec) true) [] st
                (Forall_nil_2 _)) as H.
  destruct (foldl _ _ _) as [[flags out] st']. cbn [fst].
  destruct H as [Hrep Hlen]. rewrite length_seq in Hlen.
  split; [simpl in Hlen; lia|]. split; [done|].
  intros Hdig. eapply Forall_impl; [exact Hrep|].
  intros h [(i & p & n & Hi & Hn & _ & ->)
           |(i & j & p1 & n1 & p2 & n2 & _ & Hi & Hj & _ & Hle & _ & ->)].
  - apply (proj1 (Forall_lookup _ _) Hdig) in Hi. simpl in Hi. lia.
  - apply (proj1 (Forall_lookup _ _) Hdig) in Hi, Hj. simpl in Hi, Hj.
    split; [by apply pair_level_range | done].
Qed.

Lemma same_icon_sym p1 p2 : same_icon p1 p2 = same_icon p2 p1.
Proof.
  unfold same_icon.
  replace (Z.abs (pt_y p2 - pt_y p1)) with (Z.abs (pt_y p1 - pt_y p2)) by lia.
  by replace (Z.abs (pt_x p2 - pt_x p1)) with (Z.abs (pt_x p1 - pt_x p2))
    by lia.
Qed.

Lemma track_hero_pair p1 num1 p2 num2 ts st :
  same_icon p1 p2 = true -> pair_level p1 num1 p2 num2 <= 15 ->
  track_hero [(p1, num1); (p2, num2)] ts st
  = let '(out, st') :=
      assign_hero (pair_level p1 num1 p2 num2) (pair_anchor p1 p2) [] ts st in
    (out,
     mkAnalyzer (dist_list_ st') (hero_id_ st') true (last_updated_ st')
       (appearances_ st') (heroes_list_ st')).
Proof.
  intros Hicon Hlvl%Z.leb_le.
  unfold track_hero. cbn [length seq foldl replicate].
  unfold compose_step at 2. cbn [lookup_total list_lookup_total negb].
  cbn [lookup list_lookup drop find_partner].
  rewrite Hicon, Hlvl. cbn [andb].
  destruct (assign_hero _ _ _ _ _) as [out' st'].
  unfold compose_step. by simpl.
Qed.

(** X10.  The level read off a pair of digits does not depend on which of
    the two was detected first: when two detections pair into a level of at
    most 15, a frame holding them in either order reports the same hero and
    leaves the analyzer in the same state. *)
Theorem pair_order_irrelevant
    (p1 p2 : Point) (num1 num2 ts : Z) (st : GameVideoAnalyzer) :
  same_icon p1 p2 = true ->
  pair_level p1 num1 p2 num2 <= 15 ->
  track_hero [(p1, num1); (p2, num2)] ts st
  = track_hero [(p2, num2); (p1, num1)] ts st.
Proof.
  intros Hicon Hlvl.
  assert (Hx : pt_x p1 <> pt_x p2).
  { unfold same_icon in Hicon. apply andb_prop in Hicon as [_ Hgt].
    apply Z.gtb_gt in Hgt. lia. }
  assert (Hl : pair_level p2 num2 p1 num1 = pair_level p1 num1 p2 num2).
  { unfold pair_level.
    destruct (Z.gtb_spec (pt_x p1) (pt_x p2)),
             (Z.gtb_spec (pt_x p2) (pt_x p1)); lia. }
  assert (Ha : pair_anchor p2 p1 = pair_anchor p1 p2).
  { unfold pair_anchor.
    destruct (Z.gtb_spec (pt_x p1) (pt_x p2)),
             (Z.gtb_spec (pt_x p2) (pt_x p1)); done || lia. }
  rewrite (track_hero_pair p1 num1 p2 num2) by done.
  rewrite (track_hero_pair p2 num2 p1 num1), Hl, Ha;
    [done | by rewrite same_icon_sym | lia].
Qed.

Lemma pair_order_irrelevant_witness :
  same_icon (mkPoint 10 5) (mkPoint 20 5) = true
  /\ pair_level (mkPoint 10 5) 1 (mkPoint 20 5) 3 <= 15
  /\ (track_hero [(mkPoint 20 5, 3); (mkPoint 10 5, 1)] 0 new_analyzer).1
     = [mkHero 0 (mkPoint 20 5) 13].
Proof.
  split; [reflexivity|]. split; [by vm_compute|].
  rewrite <- (pair_order_irrelevant (mkPoint 10 5) (mkPoint 20 5) 1 3 0
                new_analyzer); by vm_compute.
Defined.

(** ** The front end of [track_hero] *)

Lemma omap_length {A B} (f : A -> option B) (l : list A) :
  (length (omap f l) <= length l)%nat.
Proof.
  induction l as [|x l IH]; [done|].
  change (omap f (x :: l))
    with (match f x with Some y => y :: omap f l | None => omap f l end).
  destruct (f x); cbn [length]; lia.
Qed.

Lemma region_digit_spec pointPolygonTest src_bw src_s src_v contours_mask
    number_samples avg_err_thres number_box p d :
  region_digit pointPolygonTest src_bw src_s src_v contours_mask
    number_samples avg_err_thres number_box = Some (p, d) ->
  p = mkPoint (r_x number_box) (r_y number_box)
  /\ is_masked pointPolygonTest contours_mask number_box = false
  /\ 12 <= r_height number_box <= 15
  /\ 4 <= r_width number_box <= 10
  /\ is_black_white (sub_mat src_s number_box) (sub_mat src_v number_box)
     = true
  /\ d = detect_number_roi src_bw number_box number_samples avg_err_thres
  /\ 0 <= d <= 9.
Proof.
  unfold region_digit.
  destruct (is_masked _ _ _); [done|].
  destruct (Z.gtb_spec (r_height number_box) 15); [done|].
  destruct (Z.ltb_spec (r_height number_box) 12); [done|].
  destruct (Z.gtb_spec (r_width number_box) 10); [done|].
  destruct (Z.ltb_spec (r_width number_box) 4); [done|].
  cbn [orb]. destruct (is_black_white _ _); [|done]. cbn [negb].
  destruct (Z.eqb_spec (detect_number_roi src_bw number_box number_samples
                          avg_err_thres) (-1)) as [|Hne]; [done|].
  intros [= <- <-].
  destruct (detect_number_roi_range src_bw number_box number_samples
              avg_err_thres); [done|].
  repeat split; try done; lia.
Qed.

(** X11.  Whatever the mask test answers, every detection that the front
    end of [track_hero] hands to the composer comes from a bounding box that
    is not masked, is 12 to 15 pixels high and 4 to 10 pixels wide and
    passes the black-and-white test; it carries the top-left corner of the
    box and a digit between 0 and 9.  Consequently a frame reports at most
    one hero per contour and only levels between 0 and 15. *)
Theorem track_hero_frame_levels
    (pointPolygonTest : list Point -> Point -> Z)
    (src_bw src_s src_v : Mat) (contours_mask : list (list Point))
    (boxes : list Rect) (ts : Z) (number_samples : list Mat)
    (avg_err_thres : float) (st : GameVideoAnalyzer) :
  let rect_num_vec :=
    rect_num_vec_of pointPolygonTest src_bw src_s src_v contours_mask
      number_samples avg_err_thres boxes in
  let out :=
    (track_hero_frame pointPolygonTest src_bw src_s src_v contours_mask
       boxes ts number_samples avg_err_thres st).1 in
  (forall p d, (p, d) ∈ rect_num_vec ->
     exists number_box,
       number_box ∈ boxes
       /\ p = mkPoint (r_x number_box) (r_y number_box)
       /\ is_masked pointPolygonTest contours_mask number_box = false
       /\ 12 <= r_height number_box <= 15
       /\ 4 <= r_width number_box <= 10
       /\ is_black_white (sub_mat src_s number_box)
            (sub_mat src_v number_box) = true
       /\ d = detect_number_roi src_bw number_box number_samples
                avg_err_thres
       /\ 0 <= d <= 9)
  /\ (length out <= length boxes)%nat
  /\ Forall (fun h => 0 <= level h <= 15) out.
Proof.
  cbv zeta. unfold track_hero_frame, rect_num_vec_of.
  set (rnv := omap _ boxes).
  assert (Hent : forall p d, (p, d) ∈ rnv ->
            exists number_box,
              number_box ∈ boxes
              /\ p = mkPoint (r_x number_box) (r_y number_box)
              /\ is_masked pointPolygonTest contours_mask number_box = false
              /\ 12 <= r_height number_box <= 15
              /\ 4 <= r_width number_box <= 10
              /\ is_black_white (sub_mat src_s number_box)
                   (sub_mat src_v number_box) = true
              /\ d = detect_number_roi src_bw number_box number_samples
                       avg_err_thres
              /\ 0 <= d <= 9).
  { intros p d (number_box & Hin & Hd)%list_elem_of_omap.
    exists number_box. split; [done|]. by eapply region_digit_spec. }
  split; [done|].
  assert (Hdig : Forall (fun d : Point * Z => 0 <= d.2 <= 9) rnv).
  { apply Forall_forall. intros [p d] (b & _ & _ & _ & _ & _ & _ & _ & ?)%Hent.
    done. }
  pose proof (omap_length
                (region_digit pointPolygonTest src_bw src_s src_v
                   contours_mask number_samples avg_err_thres) boxes) as Hlen.
  fold rnv in Hlen.
  (* the composer, as in [track_hero_reports_from_detections] *)
  unfold track_hero.
  pose proof (compose_loop_reports rnv ts (seq 0 (length rnv))
                (replicate (length rnv) true) [] st (Forall_nil_2 _)) as H.
  destruct (foldl _ _ _) as [[flags out] st']. cbn [fst].
  destruct H as [Hrep Hout]. rewrite length_seq in Hout.
  split; [simpl in Hout; lia|].
  eapply Forall_impl; [exact Hrep|].
  intros h [(i & p & n & Hi & Hn & _ & ->)
           |(i & j & p1 & n1 & p2 & n2 & _ & Hi & Hj & _ & Hle & _ & ->)].
  - apply (proj1 (Forall_lookup _ _) Hdig) in Hi. simpl in Hi. lia.
  - apply (proj1 (Forall_lookup _ _) Hdig) in Hi, Hj. simpl in Hi, Hj.
    split; [by apply pair_level_range | done].
Qed.

(** ** Bounds of [detect_number_fixed] *)

(** X12.  [detect_number_fixed] returns a number in the range of [int].
    For an icon with at most nine contours the result is not negative and
    has at most as many decimal digits as there are contours: it lies
    below [10^n] for [n] contours. *)
Theorem detect_number_fixed_bounds
    (src : Mat) (boxes : list Rect) (number_samples : list Mat)
    (avg_err_thres : float) (size_restrict : Vec4d) :
  let result :=
    detect_number_fixed src boxes number_samples avg_err_thres size_restrict in
  - 2 ^ 31 <= result < 2 ^ 31
  /\ ((length boxes <= 9)%nat ->
      0 <= result < 10 ^ Z.of_nat (length boxes)).
Proof.
  cbv zeta. unfold detect_number_fixed. split.
  - rewrite compose_cooldown_wrap. apply wrap_int_range.
  - intros Hlen.
    destruct (fixed_loop_digits src number_samples avg_err_thres size_restrict
                boxes [] (Forall_nil_2 _)) as [Hd Hl].
    cbv zeta in Hd, Hl. cbn [length] in Hl.
    rewrite compose_cooldown_exact by (done || lia).
    assert (Hd' : Forall (fun d => 0 <= d <= 9)
                    (foldl (fixed_step src number_samples avg_err_thres
                              size_restrict) [] boxes).*2)
      by (by apply Forall_fmap).
    pose proof (decimal_value_bounds _ Hd') as [H0 Hlt].
    rewrite length_fmap in Hlt.
    split; [done|]. eapply Z.lt_le_trans; [exact Hlt|].
    apply Z.pow_le_mono_r; lia.
Qed.

Lemma detect_number_fixed_bounds_witness :
  0 <= detect_number_fixed stacked_icon stacked_boxes toy_templates
         0x1.3333333333333p-2 (2, 2, 2, 2)%float
    < 10 ^ Z.of_nat (length stacked_boxes).
Proof.
  apply (detect_number_fixed_bounds stacked_icon stacked_boxes toy_templates
           0x1.3333333333333p-2 (2, 2, 2, 2)%float).
  cbn [stacked_boxes length]. lia.
Defined.

(** ** Conversions between [int] and [double] *)

Lemma Zpos_shiftl p (n : N) : Zpos (Pos.shiftl p n) = Zpos p * 2 ^ Z.of_N n.
Proof.
  unfold Pos.shiftl. destruct n as [|k]; [simpl; lia|]. cbn [Z.of_N].
  induction k as [|k IH] using Pos.peano_ind.
  - cbn [Pos.iter]. rewrite (Pos2Z.inj_xO p). lia.
  - rewrite Pos.iter_succ, (Pos2Z.inj_xO (Pos.iter _ _ _)), IH.
    rewrite Pos2Z.inj_succ, Z.pow_succ_r by lia. lia.
Qed.

Lemma Prim2SF_of_int n :
  - 2 ^ 53 < n < 2 ^ 53 -> Prim2SF (of_int n) = int_to_SF n.
Proof.
  intros Hn. unfold of_int. apply Prim2SF_SF2Prim.
  destruct n as [|p|p]; [done|..]; unfold int_to_SF;
    (assert (Hd : Zpos (digits2_pos p) <= 53)
       by (apply (Zdigits2_le (Zpos p)); lia));
    (destruct (Z.leb_spec (Zpos (digits2_pos p)) prec) as [_|Hgt];
       [|unfold prec in Hgt; lia]);
    simpl; unfold bounded, canonical_mantissa;
    rewrite digits2_pos_shiftl;
    unfold fexp, emin, prec, emax; apply andb_true_intro; split;
    [apply Z.eqb_eq; lia | apply Z.leb_le; lia
    |apply Z.eqb_eq; lia | apply Z.leb_le; lia].
Qed.

(** X13.  Converting an [int] to [double] and back gives the [int] again:
    no integer of magnitude below [2^53], in particular no 32-bit [int], is
    changed by the round trip through the conversions that the statistic and
    the circle centre go through. *)
Theorem to_int_of_int (n : Z) :
  - 2 ^ 53 < n < 2 ^ 53 -> to_int (of_int n) = n.
Proof.
  intros Hn. unfold to_int. rewrite Prim2SF_of_int by done.
  destruct n as [|p|p]; [done|..]; unfold int_to_SF;
    (assert (Hd : Zpos (digits2_pos p) <= 53)
       by (apply (Zdigits2_le (Zpos p)); lia));
    (destruct (Z.leb_spec (Zpos (digits2_pos p)) prec) as [_|Hgt];
       [|unfold prec in Hgt; lia]);
    unfold prec in *; cbn [Z.ltb Z.compare];
    (destruct (Zpos (digits2_pos p) - 53) as [|k|k] eqn:He; [|lia|]).
  - replace (53 - Zpos (digits2_pos p)) with 0 by lia. done.
  - rewrite Z.shiftr_div_pow2, Zpos_shiftl by lia.
    rewrite Z2N.id by lia.
    replace (53 - Zpos (digits2_pos p)) with (Zpos k) by lia.
    rewrite Z.div_mul; [done|]. apply Z.pow_nonzero; lia.
  - replace (53 - Zpos (digits2_pos p)) with 0 by lia. done.
  - rewrite Z.shiftr_div_pow2, Zpos_shiftl by lia.
    rewrite Z2N.id by lia.
    replace (53 - Zpos (digits2_pos p)) with (Zpos k) by lia.
    rewrite Z.div_mul; [done|]. apply Z.pow_nonzero; lia.
Qed.

Lemma to_int_of_int_witness :
  - 2 ^ 53 < -1234567 < 2 ^ 53 /\ to_int (of_int (-1234567)) = -1234567.
Proof.
  split; [by vm_compute|]. apply to_int_of_int. by vm_compute.
Defined.

(** ** The black-and-white test *)

Lemma count_fold_bounds {B} (p : B -> bool) (l : list B) (acc : Z) :
  acc <= foldl (fun a x => if p x then a + 1 else a) acc l
      <= acc + Z.of_nat (length l).
Proof.
  revert acc. induction l as [|x l IH]; intros acc; cbn [foldl length]; [lia|].
  specialize (IH (if p x then acc + 1 else acc)). destruct (p x); lia.
Qed.

Lemma count_fold_all {B} (p : B -> bool) (l : list B) (acc : Z) :
  (forall x, x ∈ l -> p x = true) ->
  foldl (fun a x => if p x then a + 1 else a) acc l
  = acc + Z.of_nat (length l).
Proof.
  revert acc. induction l as [|x l IH]; intros acc Hall;
    cbn [foldl length]; [lia|].
  rewrite (Hall x) by apply list_elem_of_here.
  rewrite IH; [lia|]. intros y Hy. apply Hall. by apply list_elem_of_further.
Qed.

Lemma color_rows_bounds (src_s src_v : Mat) (ys : list nat) (acc : Z) :
  let f := fun color_pixels iy =>
    foldl (fun color_pixels ix =>
             if (at_ src_s iy ix >? 70) && (at_ src_v iy ix >? 30)
             then color_pixels + 1 else color_pixels)
          color_pixels (seq 0 (cols src_s)) in
  acc <= foldl f acc ys
      <= acc + Z.of_nat (length ys) * Z.of_nat (cols src_s).
Proof.
  cbv zeta. revert acc.
  induction ys as [|iy ys IH]; intros acc; cbn [foldl length]; [lia|].
  pose proof (count_fold_bounds
                (fun ix => (at_ src_s iy ix >? 70) && (at_ src_v iy ix >? 30))
                (seq 0 (cols src_s)) acc) as Hin.
  rewrite length_seq in Hin. cbv beta in Hin.
  specialize (IH (foldl (fun a x =>
                    if (at_ src_s iy x >? 70) && (at_ src_v iy x >? 30)
                    then a + 1 else a) acc (seq 0 (cols src_s)))).
  lia.
Qed.

Lemma color_rows_all (src_s src_v : Mat) (ys : list nat) (acc : Z) :
  (forall iy ix, iy ∈ ys -> (ix < cols src_s)%nat ->
     (at_ src_s iy ix >? 70) && (at_ src_v iy ix >? 30) = true) ->
  foldl (fun color_pixels iy =>
           foldl (fun color_pixels ix =>
                    if (at_ src_s iy ix >? 70) && (at_ src_v iy ix >? 30)
                    then color_pixels + 1 else color_pixels)
                 color_pixels (seq 0 (cols src_s)))
        acc ys
  = acc + Z.of_nat (length ys) * Z.of_nat (cols src_s).
Proof.
  revert acc. induction ys as [|iy ys IH]; intros acc Hall;
    cbn [foldl length]; [lia|].
  rewrite (count_fold_all
             (fun ix => (at_ src_s iy ix >? 70) && (at_ src_v iy ix >? 30))).
  - rewrite IH, length_seq; [lia|].
    intros iy' ix Hy Hx. apply Hall; [by apply list_elem_of_further | done].
  - intros ix Hix%elem_of_seq. apply Hall; [apply list_elem_of_here | lia].
Qed.

(** X14.  [is_black_white] counts at most [rows * cols] coloured pixels.  A
    region without any coloured pixel (saturation above 70 and value above
    30) passes, and so does every region of fewer than 12 pixels, whatever
    its colours.  A region of at least 12 rows all of whose pixels are
    coloured fails. *)
Theorem is_black_white_cases (src_s src_v : Mat) :
  let colored iy ix := (at_ src_s iy ix >? 70) && (at_ src_v iy ix >? 30) in
  0 <= color_pixels_of src_s src_v
    <= Z.of_nat (rows src_s) * Z.of_nat (cols src_s)
  /\ ((forall iy ix, (iy < rows src_s)%nat -> (ix < cols src_s)%nat ->
         colored iy ix = false) ->
      is_black_white src_s src_v = true)
  /\ ((rows src_s * cols src_s < 12)%nat ->
      is_black_white src_s src_v = true)
  /\ ((forall iy ix, (iy < rows src_s)%nat -> (ix < cols src_s)%nat ->
         colored iy ix = true) ->
      (12 <= rows src_s)%nat -> (1 <= cols src_s)%nat ->
      is_black_white src_s src_v = false).
Proof.
  cbv zeta.
  pose proof (color_rows_bounds src_s src_v (seq 0 (rows src_s)) 0) as Hb.
  cbv zeta in Hb. rewrite length_seq in Hb. fold (color_pixels_of src_s src_v) in Hb.
  split; [lia|]. unfold is_black_white. split; [|split].
  - intros Hnone. apply Z.ltb_lt.
    replace (color_pixels_of src_s src_v) with 0; [lia|].
    symmetry. unfold color_pixels_of. apply foldl_fixed.
    intros iy Hiy%elem_of_seq. apply foldl_fixed.
    intros ix Hix%elem_of_seq. rewrite Hnone by lia. done.
  - intros Hsmall. apply Z.ltb_lt. nia.
  - intros Hall Hr Hc. apply Z.ltb_ge.
    unfold color_pixels_of. rewrite color_rows_all, length_seq.
    + nia.
    + intros iy ix Hiy%elem_of_seq Hix. apply Hall; lia.
Qed.

(** ** The joystick estimator and the tracker share nothing *)

Lemma with_dist_list_id st : with_dist_list (dist_list_ st) st = st.
Proof. by destruct st. Qed.

Lemma assign_hero_dist d lvl pos out ts st :
  assign_hero lvl pos out ts (with_dist_list d st)
  = ((assign_hero lvl pos out ts st).1,
     with_dist_list d (assign_hero lvl pos out ts st).2).
Proof.
  unfold assign_hero, with_dist_list.
  cbn [is_heroes_list_initialized_ heroes_list_ last_updated_].
  destruct (negb _); [done|].
  destruct (_ || _); [done|].
  destruct (_ =? _); [done|].
  destruct (_ =? _); done.
Qed.

Lemma compose_step_dist d rnv ts flags out st i :
  compose_step rnv ts (flags, out, with_dist_list d st) i
  = ((compose_step rnv ts (flags, out, st) i).1,
     with_dist_list d (compose_step rnv ts (flags, out, st) i).2).
Proof.
  unfold compose_step.
  destruct (negb _); [done|].
  destruct (rnv !! i) as [[p1 num1]|]; [|done].
  destruct (find_partner _ _ _ _) as [[[j hero_level] anchor]|].
  - rewrite assign_hero_dist.
    by destruct (assign_hero hero_level anchor out ts st).
  - destruct (num1 >? 0); [|done].
    rewrite assign_hero_dist. by destruct (assign_hero num1 p1 out ts st).
Qed.

Lemma compose_loop_dist d rnv ts js flags out st :
  foldl (compose_step rnv ts) (flags, out, with_dist_list d st) js
  = ((foldl (compose_step rnv ts) (flags, out, st) js).1,
     with_dist_list d (foldl (compose_step rnv ts) (flags, out, st) js).2).
Proof.
  revert flags out st.
  induction js as [|j js IH]; intros flags out st; [done|].
  cbn [foldl]. rewrite compose_step_dist.
  destruct (compose_step rnv ts (flags, out, st) j) as [[flags' out'] st'].
  apply IH.
Qed.

Lemma track_hero_dist d rnv ts st :
  track_hero rnv ts (with_dist_list d st)
  = ((track_hero rnv ts st).1, with_dist_list d (track_hero rnv ts st).2).
Proof.
  unfold track_hero. rewrite compose_loop_dist.
  by destruct (foldl _ _ _) as [[flags out] st'].
Qed.

Lemma delete_loop_dist d fuel ts it na i st :
  delete_loop fuel ts it na i (with_dist_list d st)
  = with_dist_list d (delete_loop fuel ts it na i st).
Proof.
  revert i st. induction fuel as [|fuel IH]; intros i st; [done|].
  cbn [delete_loop].
  change (heroes_list_ (with_dist_list d st)) with (heroes_list_ st).
  destruct (_ <? _)%nat; [|done].
  change (is_inactive ts it na i (with_dist_list d st))
    with (is_inactive ts it na i st).
  destruct (is_inactive ts it na i st); [|apply IH].
  change (erase_hero i (with_dist_list d st))
    with (with_dist_list d (erase_hero i st)).
  apply IH.
Qed.

Lemma run_dist d ops st :
  run ops (with_dist_list d st) = with_dist_list d (run ops st).
Proof.
  revert st. induction ops as [|op ops IH]; intros st; [done|].
  unfold run. cbn [foldl]. fold (run ops (run_op op (with_dist_list d st))).
  fold (run ops (run_op op st)). rewrite <- IH. f_equal.
  destruct op; cbn [run_op].
  - by rewrite assign_hero_dist.
  - by rewrite track_hero_dist.
  - apply delete_loop_dist.
Qed.

(** X15.  The tracker and the joystick estimator work on disjoint members of
    the analyzer.  No sequence of tracker operations changes [dist_list_],
    hence the statistic of [estimate_js_axis_status]; and
    [estimate_joystick_angle] may be called before or after the tracker
    operations of a frame with the same angle and the same final state. *)
Theorem joystick_commutes_with_tracker (atan2 : float -> float -> float)
    (circles : list Circle) (ops : list tracker_op) (st : GameVideoAnalyzer) :
  dist_list_ (run ops st) = dist_list_ st
  /\ (forall mean stdvar,
        estimate_js_axis_status (run ops st) mean stdvar
        = estimate_js_axis_status st mean stdvar)
  /\ estimate_joystick_angle atan2 circles (run ops st)
     = ((estimate_joystick_angle atan2 circles st).1,
        run ops (estimate_joystick_angle atan2 circles st).2).
Proof.
  assert (Hd : dist_list_ (run ops st) = dist_list_ st).
  { rewrite <- (with_dist_list_id st) at 1. by rewrite run_dist. }
  split; [done|]. split.
  - intros mean stdvar. unfold estimate_js_axis_status. by rewrite Hd.
  - unfold estimate_joystick_angle. destruct circles as [|c circles]; [done|].
    cbn [fst snd]. f_equal. rewrite Hd.
    exact (eq_sym (run_dist _ ops st)).
Qed.

(** ** The distance of [assign_hero] *)

Lemma pow2_of_int_opp n :
  - 2 ^ 53 < n < 2 ^ 53 -> pow2 (of_int (- n)) = pow2 (of_int n).
Proof.
  intros Hn. apply Prim2SF_inj. unfold pow2.
  rewrite !mul_spec, !Prim2SF_of_int by lia.
  destruct n as [|p|p]; [done|..];
    [change (- Zpos p) with (Zneg p) | change (- Zneg p) with (Zpos p)];
    unfold int_to_SF;
    (assert (Hd : Zpos (digits2_pos p) <= 53)
       by (apply (Zdigits2_le (Zpos p)); lia));
    (destruct (Z.leb_spec (Zpos (digits2_pos p)) prec) as [_|Hgt];
       [|unfold prec in Hgt; lia]);
    unfold SF64mul, SFmul; reflexivity.
Qed.

Lemma point_dist_self p : point_dist p p = 0%float.
Proof. unfold point_dist. rewrite !Z.sub_diag. reflexivity. Qed.

(** X16.  The distance computed at lines 286-287 does not depend on the
    order of its two points, for all points with [int] coordinates: the
    sign of a coordinate difference is lost in its square. *)
Theorem point_dist_sym (p q : Point) :
  - 2 ^ 31 <= pt_x p < 2 ^ 31 -> - 2 ^ 31 <= pt_y p < 2 ^ 31 ->
  - 2 ^ 31 <= pt_x q < 2 ^ 31 -> - 2 ^ 31 <= pt_y q < 2 ^ 31 ->
  point_dist p q = point_dist q p.
Proof.
  intros Hpx Hpy Hqx Hqy. unfold point_dist.
  replace (pt_x q - pt_x p) with (- (pt_x p - pt_x q)) by lia.
  replace (pt_y q - pt_y p) with (- (pt_y p - pt_y q)) by lia.
  by rewrite !pow2_of_int_opp by lia.
Qed.

Lemma point_dist_sym_witness :
  point_dist (mkPoint 100 200) (mkPoint 103 204)
  = point_dist (mkPoint 103 204) (mkPoint 100 200).
Proof. apply point_dist_sym; cbn [pt_x pt_y]; lia. Defined.

(** X17.  A reading at the exact position of a stored entity always has a
    nearest entity: its distance to that entity is 0, below the bound 20, so
    the scan of lines 283-292 never answers [-1]. *)
Theorem reading_at_stored_position_has_nearest (pos : Point)
    (heroes : list HeroStatus) (j : nat) (h : HeroStatus) :
  heroes !! j = Some h -> position h = pos ->
  exists i : nat,
    nearest_hero pos heroes = Z.of_nat i /\ (i < length heroes)%nat.
Proof.
  intros Hj Hpos. unfold nearest_hero. rewrite nearest_loop_running_min.
  set (score := fun h => Some (point_dist pos (position h))).
  pose proof (running_min_best [] (score <$> heroes) 20%float
                _ (best_below_start 20%float)) as Hbest.
  cbn [app length] in Hbest.
  destruct Hbest as [[_ Hall]|(i & Hi & Hsi & _)].
  - specialize (Hall j 0%float). rewrite list_lookup_fmap, Hj in Hall.
    unfold score in Hall. cbn [fmap option_fmap option_map] in Hall.
    rewrite Hpos, point_dist_self in Hall. by specialize (Hall eq_refl).
  - exists i. split; [done|].
    apply lookup_lt_Some in Hsi. by rewrite length_fmap in Hsi.
Qed.

Lemma reading_at_stored_position_has_nearest_witness :
  exists i : nat,
    nearest_hero (mkPoint 5 7)
      [mkHero 0 (mkPoint 90 90) 3; mkHero 1 (mkPoint 5 7) 4] = Z.of_nat i
    /\ (i < 2)%nat.
Proof.
  apply (reading_at_stored_position_has_nearest (mkPoint 5 7)
           [mkHero 0 (mkPoint 90 90) 3; mkHero 1 (mkPoint 5 7) 4]
           1%nat (mkHero 1 (mkPoint 5 7) 4)); reflexivity.
Defined.

(** ** A frame of [main]: track, then evict *)

Lemma seen_at_push lvl pos ts out st :
  parallel st -> seen_at ts out st ->
  seen_at ts (push_new_hero lvl pos ts out st).1
             (push_new_hero lvl pos ts out st).2.
Proof.
  intros [Hlu _] Hseen h Hh. cbn [push_new_hero fst snd] in *.
  cbn [heroes_list_ last_updated_].
  apply elem_of_app in Hh as [Hh|Hh].
  - destruct (Hseen h Hh) as (k & h' & Hk & Hid & Hts).
    exists k, h'. split; [|split; [done|]].
    + by apply lookup_app_l_Some.
    + by apply lookup_app_l_Some.
  - apply list_elem_of_singleton in Hh as ->.
    exists (length (heroes_list_ st)), (mkHero (hero_id_ st) pos lvl).
    split; [|split; [done|]].
    + by rewrite lookup_app_r, Nat.sub_diag by lia.
    + by rewrite <- Hlu, lookup_app_r, Nat.sub_diag by lia.
Qed.

Lemma seen_at_merge i lvl pos ts bump out st :
  (i < length (heroes_list_ st))%nat ->
  parallel st -> seen_at ts out st ->
  seen_at ts (merge_hero i lvl pos ts bump out st).1
             (merge_hero i lvl pos ts bump out st).2.
Proof.
  intros Hi [Hlu _] Hseen h Hh. cbn [merge_hero fst snd] in *.
  cbn [heroes_list_ last_updated_].
  assert (Hnew : exists h',
             <[i := mkHero (hero_id (heroes_list_ st !!! i)) pos
                      (if bump then lvl else level (heroes_list_ st !!! i))]>
               (heroes_list_ st) !! i = Some h'
             /\ hero_id h' = hero_id (heroes_list_ st !!! i)
             /\ <[i := ts]> (last_updated_ st) !! i = Some ts).
  { eexists. split; [by apply list_lookup_insert_eq|]. split; [done|].
    apply list_lookup_insert_eq. lia. }
  apply elem_of_app in Hh as [Hh|Hh].
  - destruct (Hseen h Hh) as (k & h' & Hk & Hid & Hts).
    destruct (decide (k = i)) as [->|Hne].
    + destruct Hnew as (h'' & Hk' & Hid' & Hts'). exists i, h''.
      split; [done|]. split; [|done].
      rewrite Hid', <- Hid. f_equal.
      by apply list_lookup_total_correct.
    + exists k, h'. split; [|split; [done|]].
      * by rewrite list_lookup_insert_ne.
      * by rewrite list_lookup_insert_ne.
  - apply list_elem_of_singleton in Hh as ->.
    destruct Hnew as (h'' & Hk' & Hid' & Hts'). by exists i, h''.
Qed.

Lemma seen_at_assign lvl pos out ts st :
  parallel st -> seen_at ts out st ->
  seen_at ts (assign_hero lvl pos out ts st).1
             (assign_hero lvl pos out ts st).2.
Proof.
  intros Hp Hseen. destruct (assign_hero_outcome lvl pos out ts st).
  - by apply seen_at_push.
  - by apply seen_at_merge.
Qed.

Lemma seen_at_step rnv ts s i :
  parallel s.2 -> seen_at ts s.1.2 s.2 ->
  parallel (compose_step rnv ts s i).2
  /\ seen_at ts (compose_step rnv ts s i).1.2 (compose_step rnv ts s i).2.
Proof.
  destruct s as [[flags out] st]. cbn [fst snd]. intros Hp Hseen.
  unfold compose_step.
  destruct (negb _); [done|].
  destruct (rnv !! i) as [[p1 num1]|]; [|done].
  destruct (find_partner _ _ _ _) as [[[j hero_level] anchor]|].
  - pose proof (parallel_assign_hero hero_level anchor out ts st Hp).
    pose proof (seen_at_assign hero_level anchor out ts st Hp Hseen).
    by destruct (assign_hero hero_level anchor out ts st).
  - destruct (num1 >? 0); [|done].
    pose proof (parallel_assign_hero num1 p1 out ts st Hp).
    pose proof (seen_at_assign num1 p1 out ts st Hp Hseen).
    by destruct (assign_hero num1 p1 out ts st).
Qed.

Lemma seen_at_loop rnv ts js s :
  parallel s.2 -> seen_at ts s.1.2 s.2 ->
  parallel (foldl (compose_step rnv ts) s js).2
  /\ seen_at ts (foldl (compose_step rnv ts) s js).1.2
                (foldl (compose_step rnv ts) s js).2.
Proof.
  revert s. induction js as [|j js IH]; intros s Hp Hseen; [done|].
  cbn [foldl]. destruct (seen_at_step rnv ts s j Hp Hseen). by apply IH.
Qed.

Lemma seen_at_track rnv ts st :
  parallel st ->
  parallel (track_hero rnv ts st).2
  /\ seen_at ts (track_hero rnv ts st).1 (track_hero rnv ts st).2.
Proof.
  intros Hp. unfold track_hero.
  destruct (seen_at_loop rnv ts (seq 0 (length rnv))
              (replicate (length rnv) true, [], st) Hp) as [Hp' Hseen].
  { intros h Hh. by apply elem_of_nil in Hh. }
  by destruct (foldl _ _ _) as [[flags out] st'].
Qed.

(** X18.  In a frame of [main] (lines 592-596: [track_hero] followed by
    [delete_inactive_heroes] with the same time stamp) no hero reported in
    the frame's [hero_status_list] is evicted: after the eviction each one is
    still stored under its identity, last updated at the frame's time stamp.
    This holds for every window that is not negative, at every point of a
    run of the tracker. *)
Theorem reported_heroes_survive_frame (ops : list tracker_op)
    (rect_num_vec : list (Point * Z)) (ts inactive_time num_app : Z) :
  0 <= inactive_time ->
  let tracked := track_hero rect_num_vec ts (run ops new_analyzer) in
  seen_at ts tracked.1
    (delete_inactive_heroes ts inactive_time num_app tracked.2).
Proof.
  intros Hit. cbv zeta.
  destruct (seen_at_track rect_num_vec ts (run ops new_analyzer))
    as [[Hlu Hap] Hseen]; [apply parallel_run, parallel_new|].
  intros h Hh. destruct (Hseen h Hh) as (k & h' & Hk & Hid & Hts).
  destruct (lookup_lt_is_Some_2 (appearances_
              (track_hero rect_num_vec ts (run ops new_analyzer)).2) k)
    as [ap Hapk].
  { rewrite Hap. by eapply lookup_lt_Some. }
  destruct (delete_keeps_active ts inactive_time num_app _ k h' ts ap
              Hk Hts Hapk) as (j' & Hj' & Hlu' & _).
  { apply andb_false_intro1. rewrite Z.sub_diag, Z.gtb_ltb.
    by apply Z.ltb_ge. }
  by exists j', h'.
Qed.

Lemma reported_heroes_survive_frame_witness :
  seen_at 40 (process_frame [(mkPoint 10 5, 1); (mkPoint 20 5, 3)] 40
                (run [OpTrack [(mkPoint 100 100, 5)] 0] new_analyzer)).1
    (process_frame [(mkPoint 10 5, 1); (mkPoint 20 5, 3)] 40
       (run [OpTrack [(mkPoint 100 100, 5)] 0] new_analyzer)).2.
Proof.
  apply (reported_heroes_survive_frame [OpTrack [(mkPoint 100 100, 5)] 0]
           [(mkPoint 10 5, 1); (mkPoint 20 5, 3)] 40 1000 5). lia.
Defined.
